(** * goreq: a fluent HTTP request builder with a transport-decorator chain

    Shallow embedding of the Go package [goreq] (builder, codec and the
    Trace / Logging / Timeout transport decorators) and the properties of
    its specification.

    The Go standard library and the logging / tracing backends are modelled
    at their boundary: every effect the package has on them (header maps,
    the clock, the package-global logger, the log sink, started spans,
    derived cancellable contexts) is a component of [World], and the code is
    written in a state monad over it. *)

From Stdlib Require Import ZArith NArith Ascii Lia Bool.
From stdpp Require Import base option gmap strings list sorting.

Local Open Scope Z_scope.

(* ===================================================================== *)
(** ** Data model *)
(* ===================================================================== *)

(** Heap addresses of [http.Header] maps. A Go map is a reference: the
    builder and the request it sends may hold the same address. *)
Definition loc := nat.

(** [[]byte] *)
Definition Bytes := list Byte.byte.

(** Go's [error]; [*url.Error] is what [http.Client.Do] wraps a transport
    failure in. *)
Inductive error :=
| errorString (msg : string)
| urlError (op url : string) (err : error).

(** [time.Time] and [time.Duration], both in nanoseconds. *)
Definition Time := Z.
Definition Duration := Z.
Definition Millisecond : Duration := 1000000.
Definition Second : Duration := 1000000000.

(** [trace.SpanContext]: the identifiers a span propagates. *)
Record SpanContext := mkSpanContext {
  scTraceID : N;
  scSpanID : N;
  scSampled : bool
}.

(** [context.Context], as far as the package looks into it: the deadline,
    the value bound under [traceIDKey{}], the current span, and the
    cancellation scopes (derived cancellable contexts) it lives in. *)
Record Context := mkContext {
  ctxDeadline : option Time;
  ctxTraceID : option string;
  ctxSpan : option SpanContext;
  ctxScopes : list nat
}.

(** [context.CancelFunc]: [None] is the nil function value. *)
Definition CancelFunc := option nat.

(** [url.URL] after parsing. *)
Record url_URL := mkURL {
  urlScheme : string;
  urlHost : string;
  urlPath : string;
  urlRawQuery : string;
  urlString : string                       (* what u.String() renders *)
}.

(** [http.Request]. [reqHeader] is the address of the header map. *)
Record Request := mkRequest {
  reqMethod : string;
  reqURL : url_URL;
  reqHost : string;
  reqHeader : loc;
  reqBody : option Bytes;
  reqCtx : Context
}.

(** [http.Response]. [respBody] is the stream's content and [respBodyID]
    names the stream for [Body.Close]. *)
Record Response := mkResponse {
  StatusCode : Z;
  respBody : Bytes;
  respBodyID : nat
}.

(** What a call of a [RoundTrip] ends in: the Go result pair, or a panic. *)
Inductive Outcome :=
| Returned (resp : option Response) (err : option error)
| Panicked (v : string).

(** zap fields and the entries written to the log sink. *)
Inductive FieldValue :=
| FString (s : string)
| FInt (z : Z).

Definition Field : Type := string * FieldValue.

Record Entry := mkEntry {
  entryTime : Time;
  entryMsg : string;
  entryFields : list Field
}.

(** A span as the trace backend holds it. *)
Record Span := mkSpan {
  spanTracer : string;
  spanName : string;
  spanCtx : SpanContext;
  spanParent : option SpanContext;
  spanEnded : bool
}.

(** Events recorded by instrumented test doubles (decorators and base
    transports that write down when they are wrapped and invoked). *)
Inductive Event :=
| EvWrap (i : nat)
| EvEnter (i : nat)
| EvExit (i : nat)
| EvBase
| EvHeader (vs : list string).

(** The world outside the builder. *)
Record World := mkWorld {
  clock : Time;                            (* what time.Now() returns *)
  nextLoc : loc;                           (* next free header address *)
  headers : gmap loc (gmap string (list string));
  logger : list Field;                     (* fields of the package-global logger *)
  sink : list Entry;                       (* entries written so far *)
  idgen : N;                               (* trace backend's id generator *)
  spans : list Span;                       (* spans started so far *)
  nextScope : nat;                         (* next cancellation scope *)
  released : list nat;                     (* scopes whose cancel was called *)
  closedBodies : list nat;                 (* response bodies closed *)
  events : list Event                      (* instrumentation *)
}.

Definition set_nextLoc (f : loc -> loc) (w : World) : World :=
  mkWorld (clock w) (f (nextLoc w)) (headers w) (logger w) (sink w) (idgen w)
          (spans w) (nextScope w) (released w) (closedBodies w) (events w).
Definition set_headers
    (f : gmap loc (gmap string (list string)) -> gmap loc (gmap string (list string)))
    (w : World) : World :=
  mkWorld (clock w) (nextLoc w) (f (headers w)) (logger w) (sink w) (idgen w)
          (spans w) (nextScope w) (released w) (closedBodies w) (events w).
Definition set_logger (f : list Field -> list Field) (w : World) : World :=
  mkWorld (clock w) (nextLoc w) (headers w) (f (logger w)) (sink w) (idgen w)
          (spans w) (nextScope w) (released w) (closedBodies w) (events w).
Definition set_sink (f : list Entry -> list Entry) (w : World) : World :=
  mkWorld (clock w) (nextLoc w) (headers w) (logger w) (f (sink w)) (idgen w)
          (spans w) (nextScope w) (released w) (closedBodies w) (events w).
Definition set_idgen (f : N -> N) (w : World) : World :=
  mkWorld (clock w) (nextLoc w) (headers w) (logger w) (sink w) (f (idgen w))
          (spans w) (nextScope w) (released w) (closedBodies w) (events w).
Definition set_spans (f : list Span -> list Span) (w : World) : World :=
  mkWorld (clock w) (nextLoc w) (headers w) (logger w) (sink w) (idgen w)
          (f (spans w)) (nextScope w) (released w) (closedBodies w) (events w).
Definition set_nextScope (f : nat -> nat) (w : World) : World :=
  mkWorld (clock w) (nextLoc w) (headers w) (logger w) (sink w) (idgen w)
          (spans w) (f (nextScope w)) (released w) (closedBodies w) (events w).
Definition set_released (f : list nat -> list nat) (w : World) : World :=
  mkWorld (clock w) (nextLoc w) (headers w) (logger w) (sink w) (idgen w)
          (spans w) (nextScope w) (f (released w)) (closedBodies w) (events w).
Definition set_closedBodies (f : list nat -> list nat) (w : World) : World :=
  mkWorld (clock w) (nextLoc w) (headers w) (logger w) (sink w) (idgen w)
          (spans w) (nextScope w) (released w) (f (closedBodies w)) (events w).
Definition set_events (f : list Event -> list Event) (w : World) : World :=
  mkWorld (clock w) (nextLoc w) (headers w) (logger w) (sink w) (idgen w)
          (spans w) (nextScope w) (released w) (closedBodies w) (f (events w)).

(* ===================================================================== *)
(** ** The state monad the code runs in *)
(* ===================================================================== *)

Definition M (A : Type) : Type := World -> A * World.

Definition ret {A} (a : A) : M A := fun w => (a, w).
Definition bind {A B} (c : M A) (k : A -> M B) : M B :=
  fun w => let '(a, w1) := c w in k a w1.
Definition get {A} (f : World -> A) : M A := fun w => (f w, w).
Definition modify (f : World -> World) : M unit := fun w => (tt, f w).

Declare Scope go_scope.
Delimit Scope go_scope with go.
Notation "'let*' x := c 'in' k" := (bind c (fun x => k))
  (at level 10, x name, c at level 100, k at level 200) : go_scope.
Notation "'let*' ' pat := c 'in' k" :=
  (bind c (fun x => match x with pat => k end))
  (at level 10, pat pattern, c at level 100, k at level 200) : go_scope.
Notation "'run' c 'in' k" := (bind c (fun _ => k))
  (at level 10, c at level 100, k at level 200) : go_scope.
Local Open Scope go_scope.

(** Go's [type Transport func], from a request to a response and an error, and
    [http.RoundTripper]: the one-method interface every transport and every
    decorated transport implements. *)
Definition RoundTripper : Type := Request -> M Outcome.
Definition Transport (f : Request -> M Outcome) : RoundTripper := f.

(** [func (t Transport) RoundTrip(req)] *)
Definition RoundTrip (t : RoundTripper) (req : Request) : M Outcome := t req.

(** A decorator, [func(http.RoundTripper) http.RoundTripper]. Applying it
    is itself a Go call and may have effects (the Trace decorator looks its
    tracer up at that moment), so it lives in [M] too. *)
Definition Decorator : Type := RoundTripper -> M RoundTripper.

(* ===================================================================== *)
(** ** Standard library boundary: time, context, net/http, net/url *)
(* ===================================================================== *)

(** [time.Now()]. The clock is part of the world; it advances only while a
    transport runs, the computation steps of a decorator take no time. *)
Definition time_Now : M Time := get clock.

(** [ctx.Deadline()] *)
Definition Deadline (ctx : Context) : Time * bool :=
  match ctxDeadline ctx with
  | Some d => (d, true)
  | None => (0, false)
  end.

(** [context.WithCancel(parent)] *)
Definition context_WithCancel (parent : Context) : M (Context * CancelFunc) :=
  let* id := get nextScope in
  run modify (set_nextScope S) in
  ret (mkContext (ctxDeadline parent) (ctxTraceID parent) (ctxSpan parent)
                 (id :: ctxScopes parent), Some id).

(** [context.WithDeadline(parent, d)]: a parent deadline that is already
    earlier is kept. *)
Definition context_WithDeadline (parent : Context) (d : Time)
  : M (Context * CancelFunc) :=
  match ctxDeadline parent with
  | Some cur =>
      if cur <? d then context_WithCancel parent
      else
        let* id := get nextScope in
        run modify (set_nextScope S) in
        ret (mkContext (Some d) (ctxTraceID parent) (ctxSpan parent)
                       (id :: ctxScopes parent), Some id)
  | None =>
      let* id := get nextScope in
      run modify (set_nextScope S) in
      ret (mkContext (Some d) (ctxTraceID parent) (ctxSpan parent)
                     (id :: ctxScopes parent), Some id)
  end.

(** [context.WithTimeout(parent, timeout)] *)
Definition context_WithTimeout (parent : Context) (timeout : Duration)
  : M (Context * CancelFunc) :=
  let* now := time_Now in
  context_WithDeadline parent (now + timeout).

(** Calling a cancel function that is not nil releases its scope. *)
Definition cancel_call (id : nat) : M unit :=
  modify (set_released (fun l => l ++ [id])).

(** [context.Background()] / [context.TODO()] *)
Definition context_Background : Context := mkContext None None None [].

(** [r.WithContext(ctx)]: a shallow copy; the header map is shared. *)
Definition WithContext (r : Request) (ctx : Context) : Request :=
  mkRequest (reqMethod r) (reqURL r) (reqHost r) (reqHeader r) (reqBody r) ctx.

Definition between (lo hi c : ascii) : bool :=
  ((N_of_ascii lo <=? N_of_ascii c) && (N_of_ascii c <=? N_of_ascii hi))%N.

Definition isLower (c : ascii) : bool := between "a" "z" c.
Definition isUpper (c : ascii) : bool := between "A" "Z" c.
Definition isDigit (c : ascii) : bool := between "0" "9" c.
Definition isAlnum (c : ascii) : bool := isLower c || isUpper c || isDigit c.

Fixpoint string_mem (c : ascii) (s : string) : bool :=
  match s with
  | EmptyString => false
  | String d s' => if Ascii.eqb c d then true else string_mem c s'
  end.

Fixpoint string_forallb (p : ascii -> bool) (s : string) : bool :=
  match s with
  | EmptyString => true
  | String c s' => p c && string_forallb p s'
  end.

(** [textproto.validHeaderFieldByte]: the token characters of RFC 7230. *)
Definition validHeaderFieldByte (c : ascii) : bool :=
  isAlnum c || string_mem c "!#$%&'*+-.^_`|~".

Definition toUpper (c : ascii) : ascii :=
  if isLower c then ascii_of_N (N_of_ascii c - 32) else c.
Definition toLower (c : ascii) : ascii :=
  if isUpper c then ascii_of_N (N_of_ascii c + 32) else c.

Fixpoint canonicalize (upper : bool) (s : string) : string :=
  match s with
  | EmptyString => EmptyString
  | String c s' =>
      let c' := if upper then toUpper c else toLower c in
      String c' (canonicalize (Ascii.eqb c' "-") s')
  end.

(** [textproto.CanonicalMIMEHeaderKey]: a key with a byte that is not a
    token character is returned unchanged. *)
Definition CanonicalMIMEHeaderKey (s : string) : string :=
  if string_forallb validHeaderFieldByte s then canonicalize true s else s.

(** The header map stored at an address. Addresses from [nextLoc] on have
    not been handed out yet and nothing was ever written there: a map is
    empty until it is written to. *)
Definition header_at (l : loc) (w : World) : gmap string (list string) :=
  default ∅ (headers w !! l).

(** [make(http.Header)]: a new, empty map at the next free address. *)
Definition make_Header : M loc :=
  let* l := get nextLoc in
  run modify (set_nextLoc S) in
  ret l.

(** [h.Add(key, value)] *)
Definition http_Header_Add (l : loc) (key value : string) : M unit :=
  modify (fun w =>
    let k := CanonicalMIMEHeaderKey key in
    let h := header_at l w in
    set_headers (fun hs => <[l := <[k := default [] (h !! k) ++ [value]]> h]> hs) w).

(** [h.Set(key, value)] *)
Definition http_Header_Set (l : loc) (key value : string) : M unit :=
  modify (fun w =>
    let k := CanonicalMIMEHeaderKey key in
    set_headers (fun hs => <[l := <[k := [value]]> (header_at l w)]> hs) w).

(** [url.Values.Add(key, value)]: no canonicalisation of the key. *)
Definition url_Values_Add (key value : string) (v : gmap string (list string))
  : gmap string (list string) :=
  <[key := default [] (v !! key) ++ [value]]> v.

Definition upperhex (n : N) : ascii :=
  (match n with
   | 0%N => "0" | 1%N => "1" | 2%N => "2" | 3%N => "3"
   | 4%N => "4" | 5%N => "5" | 6%N => "6" | 7%N => "7"
   | 8%N => "8" | 9%N => "9" | 10%N => "A" | 11%N => "B"
   | 12%N => "C" | 13%N => "D" | 14%N => "E" | _ => "F"
   end)%char.

(** [url.shouldEscape(c, encodeQueryComponent)]: everything but the
    unreserved characters is escaped. *)
Definition shouldEscape (c : ascii) : bool :=
  negb (isAlnum c || string_mem c "-_.~").

(** [url.QueryEscape] *)
Fixpoint url_QueryEscape (s : string) : string :=
  match s with
  | EmptyString => EmptyString
  | String c s' =>
      if shouldEscape c then
        if Ascii.eqb c " " then String "+" (url_QueryEscape s')
        else String "%" (String (upperhex (N.shiftr (N_of_ascii c) 4))
                        (String (upperhex (N.land (N_of_ascii c) 15))
                                (url_QueryEscape s')))
      else String c (url_QueryEscape s')
  end.

(** [url.ishex] and [url.unhex] *)
Definition ishex (c : ascii) : bool :=
  isDigit c || between "a" "f" c || between "A" "F" c.

Definition unhex (c : ascii) : N :=
  if isDigit c then (N_of_ascii c - N_of_ascii "0")%N
  else if between "a" "f" c then (N_of_ascii c - N_of_ascii "a" + 10)%N
  else if between "A" "F" c then (N_of_ascii c - N_of_ascii "A" + 10)%N
  else 0%N.

(** [url.QueryUnescape]: [None] is the [EscapeError]. *)
Fixpoint url_QueryUnescape (s : string) : option string :=
  match s with
  | EmptyString => Some EmptyString
  | String c s' =>
      if Ascii.eqb c "%" then
        match s' with
        | String a (String b rest) =>
            if ishex a && ishex b then
              match url_QueryUnescape rest with
              | Some t => Some (String (ascii_of_N (N.lor (N.shiftl (unhex a) 4) (unhex b))) t)
              | None => None
              end
            else None
        | _ => None
        end
      else
        match url_QueryUnescape s' with
        | Some t => Some (String (if Ascii.eqb c "+" then " "%char else c) t)
        | None => None
        end
  end.

(** The keys of the map, sorted as [slices.Sort] sorts strings (bytewise). *)
Definition sortedKeys (v : gmap string (list string)) : list string :=
  merge_sort String.le (elements (dom v)).

(** The [key=value] pairs in the order [Encode] writes them. *)
Definition encodePairs (v : gmap string (list string)) : list (string * string) :=
  flat_map (fun k => map (fun x => (k, x)) (default [] (v !! k))) (sortedKeys v).

(** The loop body of [Encode]: an ampersand unless the buffer is empty,
    then the escaped key, [=], the escaped value. *)
Definition writePair (buf : string) (kv : string * string) : string :=
  (if Nat.ltb 0 (String.length buf) then buf +:+ "&" else buf)
    +:+ url_QueryEscape (fst kv) +:+ "=" +:+ url_QueryEscape (snd kv).

(** [url.Values.Encode] *)
Definition url_Values_Encode (v : gmap string (list string)) : string :=
  fold_left writePair (encodePairs v) "".

(** [validMethod] of net/http: a non-empty token. *)
Definition validMethod (method : string) : bool :=
  Nat.ltb 0 (String.length method) && string_forallb validHeaderFieldByte method.

(** [urlErrorOp] of net/http: the method with only its first letter in
    upper case, ["Get"] for the empty method. *)
Fixpoint string_map (f : ascii -> ascii) (s : string) : string :=
  match s with
  | EmptyString => EmptyString
  | String c s' => String (f c) (string_map f s')
  end.

Definition urlErrorOp (method : string) : string :=
  match method with
  | EmptyString => "Get"
  | String c s => String c (string_map toLower s)
  end.

(** [resp.Body.Close()] *)
Definition Body_Close (resp : Response) : M unit :=
  modify (set_closedBodies (fun l => l ++ [respBodyID resp])).

(* ===================================================================== *)
(** ** Trace backend boundary (OpenTelemetry) *)
(* ===================================================================== *)

Definition lowerhex (n : N) : ascii :=
  (match n with
   | 0%N => "0" | 1%N => "1" | 2%N => "2" | 3%N => "3"
   | 4%N => "4" | 5%N => "5" | 6%N => "6" | 7%N => "7"
   | 8%N => "8" | 9%N => "9" | 10%N => "a" | 11%N => "b"
   | 12%N => "c" | 13%N => "d" | 14%N => "e" | _ => "f"
   end)%char.

(** The lowest [digits] hexadecimal digits of [n], most significant first. *)
Fixpoint hexN (digits : nat) (n : N) : string :=
  match digits with
  | O => ""
  | S d => hexN d (N.shiftr n 4) +:+ String (lowerhex (N.land n 15)) ""
  end.

(** [TraceID.String()] and [SpanID.String()] *)
Definition TraceID_String (id : N) : string := hexN 32 id.
Definition SpanID_String (id : N) : string := hexN 16 id.

(** [SpanContext.IsValid()] *)
Definition SpanContext_IsValid (sc : SpanContext) : bool :=
  negb (scTraceID sc =? 0)%N && negb (scSpanID sc =? 0)%N.

(** [otel.Tracer(name)]: the tracer of the global provider under that
    instrumentation name. *)
Definition otel_Tracer (name : string) : M string := ret name.

(** [tracer.Start(ctx, spanName)] of the SDK tracer: the new span joins the
    trace of a valid parent span, or starts a trace; it is recorded as
    started and not ended, and the returned context carries it. *)
Definition tracer_Start (tracer : string) (ctx : Context) (spanName : string)
  : M (Context * Span) :=
  let* g := get idgen in
  let tid := match ctxSpan ctx with
             | Some p => if SpanContext_IsValid p then scTraceID p else (g + 1)%N
             | None => (g + 1)%N
             end in
  let sc := mkSpanContext tid (g + 2)%N true in
  let span := mkSpan tracer spanName sc (ctxSpan ctx) false in
  run modify (set_idgen (fun _ => (g + 2)%N)) in
  run modify (set_spans (fun l => l ++ [span])) in
  ret (mkContext (ctxDeadline ctx) (ctxTraceID ctx) (Some sc) (ctxScopes ctx), span).

(** [span.End()]: marks the span with that span id as ended. *)
Definition span_End (span : Span) : M unit :=
  modify (set_spans (map (fun s =>
    if (scSpanID (spanCtx s) =? scSpanID (spanCtx span))%N
    then mkSpan (spanTracer s) (spanName s) (spanCtx s) (spanParent s) true
    else s))).

(** The [traceparent] header value of the W3C trace context. *)
Definition traceparent (sc : SpanContext) : string :=
  "00-" +:+ TraceID_String (scTraceID sc) +:+ "-" +:+ SpanID_String (scSpanID sc)
        +:+ "-" +:+ (if scSampled sc then "01" else "00").

(** [otel.GetTextMapPropagator().Inject(ctx, propagation.HeaderCarrier(h))]
    with the [propagation.TraceContext] propagator [initTrace] installs:
    nothing is written without a valid span context. *)
Definition propagator_Inject (ctx : Context) (h : loc) : M unit :=
  match ctxSpan ctx with
  | Some sc =>
      if SpanContext_IsValid sc then http_Header_Set h "traceparent" (traceparent sc)
      else ret tt
  | None => ret tt
  end.

(* ===================================================================== *)
(** ** Log sink boundary (zap) *)
(* ===================================================================== *)

(** [l.With(field)]: a child logger with one more field. *)
Definition zap_With (l : list Field) (f : Field) : list Field := l ++ [f].

(** [l.Info(msg)]: one entry with the logger's fields. *)
Definition zap_Info (l : list Field) (msg : string) : M unit :=
  let* now := time_Now in
  modify (set_sink (fun s => s ++ [mkEntry now msg l])).

(** [d.Milliseconds()]: integer division truncating toward zero. *)
Definition Milliseconds (d : Duration) : Z := Z.quot d 1000000.

(* ===================================================================== *)
(** ** transport.go: the three decorators *)
(* ===================================================================== *)

(** The value a call of a nil function panics with. *)
Definition nilDereference : string :=
  "runtime error: invalid memory address or nil pointer dereference".

(** [contextWithTraceID] *)
Definition contextWithTraceID (ctx : Context) (traceID : string) : Context :=
  mkContext (ctxDeadline ctx) (Some traceID) (ctxSpan ctx) (ctxScopes ctx).

(** [traceIDFromContext] *)
Definition traceIDFromContext (ctx : Context) : string :=
  match ctxTraceID ctx with
  | Some traceID => traceID
  | None => ""
  end.

(** The tail shared by the three decorators:
    [if err != nil { return nil, err }; return resp, nil]. *)
Definition propagate (res : Outcome) : Outcome :=
  match res with
  | Returned resp (Some err) => Returned None (Some err)
  | Returned resp None => Returned resp None
  | Panicked v => Panicked v
  end.

(** [TraceTransport] *)
Definition TraceTransport (name : string) : Decorator :=
  fun next =>
    let* tracer := otel_Tracer name in
    ret (Transport (fun r =>
      let* '(ctx, span) := tracer_Start tracer (reqCtx r) "client_request" in
      run propagator_Inject ctx (reqHeader r) in
      let sc := spanCtx span in
      let traceID := scTraceID sc in
      let ctx := contextWithTraceID ctx (TraceID_String traceID) in
      let r := WithContext r ctx in
      let* res := RoundTrip next r in
      ret (propagate res))).

(** [TimeoutTransport]. [defer cancel()] runs on every exit of the closure,
    also when the inner call panics; when no derived context was made,
    [cancel] is still the nil function and calling it panics. *)
Definition TimeoutTransport (duration : Duration) : Decorator :=
  let duration := if duration <=? 0 then Second * 5 else duration in
  fun next =>
    ret (Transport (fun r =>
      let cancel : CancelFunc := None in
      let ctx := reqCtx r in
      let '(deadline, ok) := Deadline ctx in
      let* tighten :=
        (if negb ok then ret true
         else let* now := time_Now in ret (now + duration <? deadline)) in
      let* '(ctx, cancel) :=
        (if tighten : bool then context_WithTimeout (reqCtx r) duration
         else ret (ctx, cancel)) in
      let r := WithContext r ctx in
      let* res := RoundTrip next r in
      match cancel with
      | Some id => run cancel_call id in ret (propagate res)
      | None => ret (Panicked nilDereference)
      end)).

Section Goreq.

(** The layout [start.Format("2006-01-02 15:04:05")] renders a time in. *)
Variable Time_Format : Time -> string.

(** [LoggingTransport]. The deferred function runs on every exit of the
    closure; it sees the named results as the return statement set them
    ([resp] is nil after [return nil, err] and after a panic). *)
Definition LoggingTransport (name : string) : Decorator :=
  fun next =>
    ret (Transport (fun r =>
      let* start := time_Now in
      let* res := RoundTrip next r in
      let out := propagate res in
      let resp := match out with
                  | Returned resp _ => resp
                  | Panicked _ => None
                  end in
      let* l := get logger in
      let* now := time_Now in
      let l := zap_With l ("host", FString (reqHost r)) in
      let l := zap_With l ("host", FString (urlPath (reqURL r))) in
      let l := zap_With l ("service", FString name) in
      let l := zap_With l ("start", FString (Time_Format start)) in
      let l := zap_With l ("elapsed", FInt (Milliseconds (now - start))) in
      let l := zap_With l ("trace_id", FString (traceIDFromContext (reqCtx r))) in
      run modify (set_logger (fun _ => l)) in
      run (match resp with
           | Some rp =>
               let* l := get logger in
               modify (set_logger (fun _ => zap_With l ("statuscode", FInt (StatusCode rp))))
           | None => ret tt
           end) in
      let* l := get logger in
      run zap_Info l "client_request" in
      ret out)).

(* ===================================================================== *)
(** ** codec.go *)
(* ===================================================================== *)

(** Values handed to the codec ([interface{}]) and the two functions of
    encoding/json the default codec calls. *)
Variable Value : Type.
Variable json_Marshal : Value -> Bytes * option error.
Variable json_Decode : Bytes -> Value -> option error * Value.

(** [type Codec interface]. [Decode] returns its error and the target as
    it left it. *)
Record Codec := mkCodec {
  Decode : Bytes -> Value -> option error * Value;
  Encode : Value -> Bytes * option error
}.

(** [JsonCodec.Decode] *)
Definition JsonCodec_Decode (r : Bytes) (obj : Value) : option error * Value :=
  match json_Decode r obj with
  | (Some err, obj') => (Some err, obj')
  | (None, obj') => (None, obj')
  end.

(** [JsonCodec.Encode] *)
Definition JsonCodec_Encode (obj : Value) : Bytes * option error :=
  match json_Marshal obj with
  | (data, Some err) => ([], Some err)
  | (data, None) => (data, None)
  end.

Definition JsonCodec : Codec := mkCodec JsonCodec_Decode JsonCodec_Encode.

(** [var defaultCodec = &JsonCodec{}] *)
Definition defaultCodec : Codec := JsonCodec.

(* ===================================================================== *)
(** ** goreq.go: the builder *)
(* ===================================================================== *)

(** [url.Parse], followed by the clean-up of the host that
    [http.NewRequestWithContext] does, and [http.DefaultTransport]. *)
Variable url_Parse : string -> url_URL + error.
Variable DefaultTransport : RoundTripper.

(** [*http.Client] *)
Record Client := mkClient {
  clientTransport : option RoundTripper
}.

(** [type builder struct]. [header] is the address of the builder's header
    map; [values] is only reached through the builder. *)
Record builder := mkBuilder {
  baseURL : string;
  url : string;
  method : string;
  codec : option Codec;
  resp : option Value;
  req : option Value;
  client : option Client;
  values : gmap string (list string);
  header : loc;
  transportWrappers : list Decorator;
  rebuildTransport : Z;
  cachedTransport : option RoundTripper
}.

(** [New] *)
Definition New : M builder :=
  let* h := make_Header in
  ret (mkBuilder "" "" "" None None None None ∅ h [] 1 None).

(** [builder.WrapTransport] *)
Definition WrapTransport (wrappers : list Decorator) (b : builder) : builder :=
  mkBuilder (baseURL b) (url b) (method b) (codec b) (resp b) (req b) (client b)
            (values b) (header b) (transportWrappers b ++ wrappers)
            (rebuildTransport b) (cachedTransport b).

(** [builder.URL] *)
Definition URL (u : string) (b : builder) : builder :=
  mkBuilder (baseURL b) u (method b) (codec b) (resp b) (req b) (client b)
            (values b) (header b) (transportWrappers b)
            (rebuildTransport b) (cachedTransport b).

(** [builder.BaseURL] *)
Definition BaseURL (u : string) (b : builder) : builder :=
  mkBuilder u (url b) (method b) (codec b) (resp b) (req b) (client b)
            (values b) (header b) (transportWrappers b)
            (rebuildTransport b) (cachedTransport b).

(** [builder.Method] *)
Definition Method (m : string) (b : builder) : builder :=
  mkBuilder (baseURL b) (url b) m (codec b) (resp b) (req b) (client b)
            (values b) (header b) (transportWrappers b)
            (rebuildTransport b) (cachedTransport b).

(** [builder.QueryString] *)
Definition QueryString (key value : string) (b : builder) : builder :=
  mkBuilder (baseURL b) (url b) (method b) (codec b) (resp b) (req b) (client b)
            (url_Values_Add key value (values b)) (header b) (transportWrappers b)
            (rebuildTransport b) (cachedTransport b).

(** [builder.Header]: writes into the map the builder points at. *)
Definition Header (key value : string) (b : builder) : M builder :=
  run http_Header_Add (header b) key value in
  ret b.

(** [builder.Codec] (the method; [Codec] names the interface) *)
Definition builder_Codec (c : Codec) (b : builder) : builder :=
  mkBuilder (baseURL b) (url b) (method b) (Some c) (resp b) (req b) (client b)
            (values b) (header b) (transportWrappers b)
            (rebuildTransport b) (cachedTransport b).

(** [builder.Resp] *)
Definition Resp (v : Value) (b : builder) : builder :=
  mkBuilder (baseURL b) (url b) (method b) (codec b) (Some v) (req b) (client b)
            (values b) (header b) (transportWrappers b)
            (rebuildTransport b) (cachedTransport b).

(** [builder.Req] *)
Definition Req (v : Value) (b : builder) : builder :=
  mkBuilder (baseURL b) (url b) (method b) (codec b) (resp b) (Some v) (client b)
            (values b) (header b) (transportWrappers b)
            (rebuildTransport b) (cachedTransport b).

(** [builder.Client] *)
Definition builder_Client (c : Client) (b : builder) : builder :=
  mkBuilder (baseURL b) (url b) (method b) (codec b) (resp b) (req b) (Some c)
            (values b) (header b) (transportWrappers b)
            (rebuildTransport b) (cachedTransport b).

(** [builder.buildURL] *)
Definition buildURL (b : builder) : string :=
  let u := url b in
  let u := if negb (String.eqb (baseURL b) "") then baseURL b +:+ url b else u in
  let u := if negb (Nat.eqb (size (values b)) 0)
           then u +:+ "?" +:+ url_Values_Encode (values b) else u in
  u.

(** [builder.buildMethod] *)
Definition buildMethod (b : builder) : string :=
  let m := method b in
  let m := if String.eqb (method b) "" then "GET" else m in
  m.

(** [builder.buildCodec] *)
Definition buildCodec (b : builder) : Codec :=
  match codec b with
  | None => defaultCodec
  | Some c => c
  end.

(** The loop of [buildTransport]: every wrapper is applied to the
    transport built so far, in the order of the list. *)
Fixpoint wrapAll (wrappers : list Decorator) (transport : RoundTripper)
  : M RoundTripper :=
  match wrappers with
  | [] => ret transport
  | transportWrapper :: rest =>
      let* transport := transportWrapper transport in
      wrapAll rest transport
  end.

(** [builder.buildTransport]. The flag is compared with 1, and 1 is
    what is stored after a build. *)
Definition buildTransport (b : builder) : M (option RoundTripper * builder) :=
  if negb (rebuildTransport b =? 1) then ret (cachedTransport b, b)
  else
    let transport := DefaultTransport in
    let* transport := wrapAll (transportWrappers b) transport in
    let b := mkBuilder (baseURL b) (url b) (method b) (codec b) (resp b) (req b)
                       (client b) (values b) (header b) (transportWrappers b)
                       (rebuildTransport b) (Some transport) in
    let b := mkBuilder (baseURL b) (url b) (method b) (codec b) (resp b) (req b)
                       (client b) (values b) (header b) (transportWrappers b)
                       1 (cachedTransport b) in
    ret (Some transport, b).

(** [builder.buildClient] *)
Definition buildClient (b : builder) : M (Client * builder) :=
  let* '(t, b) := buildTransport b in
  ret (mkClient t, b).

(** [http.NewRequestWithContext]: the method is checked, the URL parsed,
    and the request gets a header map of its own. *)
Definition http_NewRequestWithContext
    (ctx : Context) (method url : string) (body : option Bytes)
  : M (Request + error) :=
  let method := if String.eqb method "" then "GET" else method in
  if negb (validMethod method)
  then ret (inr (errorString ("net/http: invalid method " +:+ method)))
  else
    match url_Parse url with
    | inr err => ret (inr err)
    | inl u =>
        let* h := make_Header in
        ret (inl (mkRequest method u (urlHost u) h body ctx))
    end.

(** What [client.Do] ends in. *)
Inductive ClientResult :=
| ClientResp (r : Response)
| ClientErr (e : error)
| ClientPanic (v : string).

(** [http.Client.Do]: one round trip through the client's transport
    ([http.DefaultTransport] when it is nil); a failure comes back wrapped
    in a [*url.Error]. Redirects are not followed in this model. *)
Definition Client_Do (c : Client) (r : Request) : M ClientResult :=
  let transport := match clientTransport c with
                   | Some t => t
                   | None => DefaultTransport
                   end in
  let* res := RoundTrip transport r in
  match res with
  | Returned (Some rp) None => ret (ClientResp rp)
  | Returned None None =>
      ret (ClientErr (urlError (urlErrorOp (reqMethod r)) (urlString (reqURL r))
             (errorString "http: RoundTripper implementation returned a nil *Response with a nil error")))
  | Returned _ (Some err) =>
      ret (ClientErr (urlError (urlErrorOp (reqMethod r)) (urlString (reqURL r)) err))
  | Panicked v => ret (ClientPanic v)
  end.

(** What [Do] ends in: the returned error (nil is [None]) or a panic. *)
Inductive DoResult :=
| DoReturn (err : option error)
| DoPanic (v : string).

(** [httpReq.Header = b.header]: the request now points at the builder's
    map. *)
Definition setHeader (h : loc) (r : Request) : Request :=
  mkRequest (reqMethod r) (reqURL r) (reqHost r) h (reqBody r) (reqCtx r).

Definition setResp (v : Value) (b : builder) : builder :=
  mkBuilder (baseURL b) (url b) (method b) (codec b) (Some v) (req b) (client b)
            (values b) (header b) (transportWrappers b)
            (rebuildTransport b) (cachedTransport b).

(** [builder.Do]. The builder comes back with what the call did to it
    (the cached transport, the decoded response target). *)
Definition Do (b : builder) (ctx : Context) : M (DoResult * builder) :=
  let url := buildURL b in
  let method := buildMethod b in
  let codec := buildCodec b in
  match (match req b with
         | Some v =>
             match Encode codec v with
             | (data, Some err) => inr err
             | (data, None) => inl (Some data)
             end
         | None => inl None
         end) with
  | inr err => ret (DoReturn (Some err), b)
  | inl body =>
      let* r := http_NewRequestWithContext ctx method url body in
      match r with
      | inr err => ret (DoReturn (Some err), b)
      | inl httpReq =>
          let httpReq := setHeader (header b) httpReq in
          let* '(client, b) := buildClient b in
          let* res := Client_Do client httpReq in
          match res with
          | ClientPanic v => ret (DoPanic v, b)
          | ClientErr err => ret (DoReturn (Some err), b)
          | ClientResp httpResp =>
              match resp b with
              | Some target =>
                  let '(err, target) := Decode codec (respBody httpResp) target in
                  let b := setResp target b in
                  run Body_Close httpResp in
                  ret (DoReturn err, b)
              | None =>
                  run Body_Close httpResp in
                  ret (DoReturn None, b)
              end
          end
      end
  end.

(** The package-level constructors: each makes a builder of its own and
    applies the method of the same name. *)
Definition goreq_URL (u : string) : M builder :=
  let* b := New in ret (URL u b).

Definition goreq_BaseURL (u : string) : M builder :=
  let* b := New in ret (BaseURL u b).

Definition goreq_Method (m : string) : M builder :=
  let* b := New in ret (Method m b).

Definition goreq_Req (v : Value) : M builder :=
  let* b := New in ret (Req v b).

Definition goreq_Resp (v : Value) : M builder :=
  let* b := New in ret (Resp v b).

Definition goreq_QueryString (key value : string) : M builder :=
  let* b := New in ret (QueryString key value b).

Definition goreq_Header (key value : string) : M builder :=
  let* b := New in Header key value b.

Definition goreq_WrapTransport (wrappers : list Decorator) : M builder :=
  let* b := New in ret (WrapTransport wrappers b).

(* ===================================================================== *)
(** ** goreq.go as it was before base URLs and transport decorators *)
(* ===================================================================== *)

(** [type builder struct] of that file. *)
Record builder0 := mkBuilder0 {
  url0 : string;
  method0 : string;
  codec0 : option Codec;
  resp0 : option Value;
  req0 : option Value;
  client0 : option Client;
  values0 : gmap string (list string);
  header0 : loc
}.

(** [var DefaultClient = &Client{}] of net/http *)
Definition http_DefaultClient : Client := mkClient None.

(** [builder.Do] of that file: the URL and the query string, the method,
    the codec, the body, the request with the builder's headers, the
    builder's client or [http.DefaultClient], the response decoded. *)
Definition Do0 (b : builder0) (ctx : Context) : M (DoResult * builder0) :=
  let url := url0 b in
  let url := if negb (Nat.eqb (size (values0 b)) 0)
             then url +:+ "?" +:+ url_Values_Encode (values0 b) else url in
  let method := method0 b in
  let method := if String.eqb (method0 b) "" then "GET" else method in
  let codec := match codec0 b with
               | None => defaultCodec
               | Some c => c
               end in
  match (match req0 b with
         | Some v =>
             match Encode codec v with
             | (data, Some err) => inr err
             | (data, None) => inl (Some data)
             end
         | None => inl None
         end) with
  | inr err => ret (DoReturn (Some err), b)
  | inl body =>
      let* r := http_NewRequestWithContext ctx method url body in
      match r with
      | inr err => ret (DoReturn (Some err), b)
      | inl httpReq =>
          let httpReq := setHeader (header0 b) httpReq in
          let client := match client0 b with
                        | None => http_DefaultClient
                        | Some c => c
                        end in
          let* res := Client_Do client httpReq in
          match res with
          | ClientPanic v => ret (DoPanic v, b)
          | ClientErr err => ret (DoReturn (Some err), b)
          | ClientResp httpResp =>
              match resp0 b with
              | Some target =>
                  let '(err, target) := Decode codec (respBody httpResp) target in
                  let b := mkBuilder0 (url0 b) (method0 b) (codec0 b) (Some target)
                                      (req0 b) (client0 b) (values0 b) (header0 b) in
                  run Body_Close httpResp in
                  ret (DoReturn err, b)
              | None =>
                  run Body_Close httpResp in
                  ret (DoReturn None, b)
              end
          end
      end
  end.

(* ===================================================================== *)
(** ** Instrumented test doubles and the vocabulary of the statements *)
(* ===================================================================== *)

Definition recordAll (es : list Event) (w : World) : World :=
  set_events (fun l => l ++ es) w.

Definition record (e : Event) : M unit := modify (recordAll [e]).

(** The transport an instrumented decorator returns: it writes down that
    it was entered, calls the inner transport with the request it got, writes
    down that the call came back, and hands the result on. *)
Definition spyTransport (i : nat) (next : RoundTripper) : RoundTripper :=
  Transport (fun r =>
    run record (EvEnter i) in
    let* res := RoundTrip next r in
    run record (EvExit i) in
    ret res).

(** An instrumented decorator; it also writes down that it was applied. *)
Definition spyDecorator (i : nat) : Decorator :=
  fun next =>
    run record (EvWrap i) in
    ret (spyTransport i next).

(** A base transport that writes down its invocation and answers [rp]. *)
Definition spyBase (rp : Response) : RoundTripper :=
  Transport (fun r => run record EvBase in ret (Returned (Some rp) None)).

(** A request executed through the transport [buildTransport] returns (the
    client falls back on [http.DefaultTransport] when that is nil). *)
Definition execute (b : builder) (r : Request) : M Outcome :=
  let* '(t, _) := buildTransport b in
  match t with
  | Some rt => RoundTrip rt r
  | None => RoundTrip DefaultTransport r
  end.

(** A decorator that adds the header [key: value] to every request it
    passes on, and a base transport that writes down the values it receives
    under [key]. *)
Definition stampDecorator (key value : string) : Decorator :=
  fun next =>
    ret (Transport (fun r =>
      run http_Header_Add (reqHeader r) key value in
      RoundTrip next r)).

Definition headerSpyBase (key : string) (rp : Response) : RoundTripper :=
  Transport (fun r =>
    let* vs := get (fun w => default [] (header_at (reqHeader r) w !! key)) in
    run record (EvHeader vs) in
    ret (Returned (Some rp) None)).

(** Several [WrapTransport] calls, one after the other. *)
Definition registerAll (calls : list (list Decorator)) (b : builder) : builder :=
  fold_left (fun b ws => WrapTransport ws b) calls b.

(** The call order the specification states for decorators registered as
    [ds]: entered first to last, then the base, left last to first. *)
Definition specCallOrder (ds : list nat) : list Event :=
  map EvEnter ds ++ [EvBase] ++ map EvExit (rev ds).

(** The invocations among the recorded events. *)
Definition isCall (e : Event) : bool :=
  match e with
  | EvWrap _ => false
  | _ => true
  end.

(** The duration a Timeout decorator works with: the configured one, or
    five seconds when that is not positive. *)
Definition effectiveDuration (duration : Duration) : Duration :=
  if duration <=? 0 then Second * 5 else duration.

(** The transport a decorator returns for [next] (its own effects at
    wrapping time left aside). *)
Definition decorated (d : Decorator) (next : RoundTripper) (w : World) : RoundTripper :=
  fst (d next w).

(** One request after the other through the same transport. *)
Fixpoint runAll (t : RoundTripper) (rs : list Request) : M unit :=
  match rs with
  | [] => ret tt
  | r :: rs' => run RoundTrip t r in runAll t rs'
  end.

(** The entries of consecutive requests: each carries the fields of the
    logger it found ([l]) and, after them, its own request's. *)
Inductive chain (name : string) : list Field -> list Request -> list Entry -> list Field -> Prop :=
| chain_nil l : chain name l [] [] l
| chain_cons l r rs e es l' more :
    entryFields e = l ++ more ->
    ("host", FString (reqHost r)) ∈ more ->
    ("service", FString name) ∈ more ->
    chain name (entryFields e) rs es l' ->
    chain name l (r :: rs) (e :: es) l'.

(** Several [QueryString] calls, one after the other. *)
Definition addQueries (kvs : list (string * string)) (b : builder) : builder :=
  fold_left (fun b kv => QueryString (fst kv) (snd kv) b) kvs b.

(** One [key=value] pair of the query string. *)
Definition pairString (kv : string * string) : string :=
  url_QueryEscape (fst kv) +:+ "=" +:+ url_QueryEscape (snd kv).

(** The pairs of a list under one key. *)
Definition underKey (k : string) (kvs : list (string * string)) : list string :=
  map snd (List.filter (fun kv => String.eqb (fst kv) k) kvs).

(** The characters an escaped query component is made of: the unreserved
    ones, the percent sign and the plus sign. *)
Definition escapedChar (c : ascii) : bool :=
  negb (shouldEscape c) || string_mem c "%+".

(** The characters RFC 3986 builds a URI from (unreserved, reserved and the
    percent sign); a well-formed URL has no other. *)
Definition uriChar (c : ascii) : bool :=
  isAlnum c || string_mem c "-._~:/?#[]@!$&'()*+,;=%".

Definition uriCharsOnly (s : string) : bool := string_forallb uriChar s.

(** The nest of instrumented transports over [t], first registered
    innermost. *)
Definition spyNest (ds : list nat) (t : RoundTripper) : RoundTripper :=
  fold_left (fun t i => spyTransport i t) ds t.

(** The body [Do] sends: the encoding of the request value, if there is
    one and it encodes. *)
Definition encodedBody (b : builder) : option Bytes + error :=
  match req b with
  | Some v =>
      match Encode (buildCodec b) v with
      | (data, Some err) => inr err
      | (data, None) => inl (Some data)
      end
  | None => inl None
  end.

(** Fixtures for concrete runs: a world in which nothing has happened yet, a
    response, a parsed URL and a request. *)
Definition emptyWorld : World := mkWorld 0 0%nat ∅ [] [] 0%N [] 0%nat [] [] [].

Definition resp200 : Response := mkResponse 200 [] 0%nat.

Definition demoParse (s : string) : url_URL + error :=
  inl (mkURL "http" "example.com" "/y" "" s).

Definition demoRequest (ctx : Context) : Request :=
  mkRequest "GET" (mkURL "http" "example.com" "/y" "" "http://example.com/y")
            "example.com" 0%nat None ctx.

(** A base transport that fails. *)
Definition failingBase (err : error) : RoundTripper :=
  Transport (fun r => run record EvBase in ret (Returned None (Some err))).

(** Several [Header] calls, one after the other. *)
Fixpoint addHeaders (kvs : list (string * string)) (b : builder) : M builder :=
  match kvs with
  | [] => ret b
  | kv :: rest => let* b := Header (fst kv) (snd kv) b in addHeaders rest b
  end.

(** The values of a list of pairs whose key has the canonical form [k]. *)
Definition underCanonicalKey (k : string) (kvs : list (string * string)) : list string :=
  map snd (List.filter (fun kv => String.eqb (CanonicalMIMEHeaderKey (fst kv)) k) kvs).

(** The three decorators of the package, by name. *)
Inductive stdDecorator :=
| DTrace (name : string)
| DLogging (name : string)
| DTimeout (duration : Duration).

Definition toDecorator (k : stdDecorator) : Decorator :=
  match k with
  | DTrace name => TraceTransport name
  | DLogging name => LoggingTransport name
  | DTimeout duration => TimeoutTransport duration
  end.

(** The builder of the earlier file with the configuration of [b]. *)
Definition asBuilder0 (b : builder) : builder0 :=
  mkBuilder0 (url b) (method b) (codec b) (resp b) (req b) (client b)
             (values b) (header b).

(** What the Trace decorator makes of a request [r] in a world [w]: the
    span it starts, the context it calls the inner transport under, and the
    world in which it does so. *)
Definition tracedSpan (name : string) (r : Request) (w : World) : Span :=
  snd (fst (tracer_Start name (reqCtx r) "client_request" w)).

Definition tracedCtx (name : string) (r : Request) (w : World) : Context :=
  contextWithTraceID (fst (fst (tracer_Start name (reqCtx r) "client_request" w)))
    (TraceID_String (scTraceID (spanCtx (tracedSpan name r w)))).

Definition tracedWorld (name : string) (r : Request) (w : World) : World :=
  snd (propagator_Inject (fst (fst (tracer_Start name (reqCtx r) "client_request" w)))
         (reqHeader r)
         (snd (tracer_Start name (reqCtx r) "client_request" w))).

(** What [Do] makes of the outcome of the round trip of the request it
    sent: its result, and the world it leaves from the world the transport
    left. *)
Definition resultOf (b : builder) (u : url_URL) (out : Outcome) : DoResult :=
  match out with
  | Returned (Some rp) None =>
      DoReturn match resp b with
               | Some target => fst (Decode (buildCodec b) (respBody rp) target)
               | None => None
               end
  | Returned None None =>
      DoReturn (Some (urlError (urlErrorOp (buildMethod b)) (urlString u)
        (errorString "http: RoundTripper implementation returned a nil *Response with a nil error")))
  | Returned _ (Some err) =>
      DoReturn (Some (urlError (urlErrorOp (buildMethod b)) (urlString u) err))
  | Panicked v => DoPanic v
  end.

Definition worldOf (out : Outcome) (w : World) : World :=
  match out with
  | Returned (Some rp) None => set_closedBodies (fun l => l ++ [respBodyID rp]) w
  | _ => w
  end.

(* ===================================================================== *)
(** ** Properties *)
(* ===================================================================== *)

(** *** Worlds *)

Lemma recordAll_recordAll es1 es2 w :
  recordAll es2 (recordAll es1 w) = recordAll (es1 ++ es2) w.
Proof. unfold recordAll, set_events; simpl. by rewrite app_assoc. Qed.

Lemma recordAll_nil w : recordAll [] w = w.
Proof. destruct w; unfold recordAll, set_events; simpl. by rewrite app_nil_r. Qed.

Lemma events_recordAll es w : events (recordAll es w) = events w ++ es.
Proof. reflexivity. Qed.

(** *** The decorator chain *)

(** The wrapper registered last is applied last: it is the outermost. *)
Lemma wrapAll_snoc ws d t w :
  wrapAll (ws ++ [d]) t w = (let* t' := wrapAll ws t in d t') w.
Proof.
  revert t w. induction ws as [|a ws IH]; intros t w; simpl.
  - unfold bind, ret. by destruct (d t w).
  - unfold bind. destruct (a t w) as [t1 w1]. rewrite IH. reflexivity.
Qed.

Lemma wrapAll_app ws1 ws2 t w :
  wrapAll (ws1 ++ ws2) t w = (let* t' := wrapAll ws1 t in wrapAll ws2 t') w.
Proof.
  revert t w. induction ws1 as [|a ws IH]; intros t w; simpl.
  - unfold bind, ret. by destruct (wrapAll ws2 t w).
  - unfold bind. destruct (a t w) as [t1 w1]. rewrite IH. reflexivity.
Qed.

Lemma wrapAll_spies ds t w :
  wrapAll (map spyDecorator ds) t w = (spyNest ds t, recordAll (map EvWrap ds) w).
Proof.
  revert t w. induction ds as [|d ds IH]; intros t w; simpl.
  - by rewrite recordAll_nil.
  - unfold bind, spyDecorator at 1, record, modify, ret; simpl.
    rewrite IH, recordAll_recordAll. reflexivity.
Qed.

Lemma spyNest_run ds t r w :
  spyNest ds t r w =
  (let '(res, w') := t r (recordAll (map EvEnter (rev ds)) w) in
   (res, recordAll (map EvExit ds) w')).
Proof.
  revert t w. induction ds as [|d ds IH]; intros t w; simpl.
  - rewrite recordAll_nil. destruct (t r w) as [res w'].
    by rewrite recordAll_nil.
  - unfold spyNest in *. rewrite IH.
    unfold spyTransport, Transport, RoundTrip, bind, record, modify, ret; simpl.
    rewrite recordAll_recordAll, map_app; simpl.
    destruct (t r _) as [res w']. by rewrite recordAll_recordAll.
Qed.

Lemma registerAll_fields calls b :
  transportWrappers (registerAll calls b) = transportWrappers b ++ concat calls
  /\ rebuildTransport (registerAll calls b) = rebuildTransport b
  /\ header (registerAll calls b) = header b
  /\ values (registerAll calls b) = values b.
Proof.
  revert b. induction calls as [|ws calls IH]; intros b; simpl.
  - by rewrite app_nil_r.
  - destruct (IH (WrapTransport ws b)) as (-> & -> & -> & ->); simpl.
    by rewrite app_assoc.
Qed.

(** Whatever the cache holds, a builder whose flag is 1 folds its whole
    decorator list over the base transport, and the flag is 1 again
    afterwards. *)
Lemma buildTransport_rebuilds b w :
  rebuildTransport b = 1 ->
  exists t w',
    wrapAll (transportWrappers b) DefaultTransport w = (t, w')
    /\ fst (fst (buildTransport b w)) = Some t
    /\ snd (buildTransport b w) = w'
    /\ rebuildTransport (snd (fst (buildTransport b w))) = 1
    /\ transportWrappers (snd (fst (buildTransport b w))) = transportWrappers b
    /\ header (snd (fst (buildTransport b w))) = header b.
Proof.
  intros H. unfold buildTransport. rewrite H; simpl.
  unfold bind, ret. destruct (wrapAll _ _ w) as [t w'].
  exists t, w'. simpl. done.
Qed.

(** C1 (as amended). Decorators registered in the order [D1, ..., Dn],
    over any number of [WrapTransport] calls, are applied to the base
    transport in that order, so the last one registered is the outermost:
    a request executed through the transport [buildTransport] returns enters
    [Dn] first, then [Dn-1], ..., then [D1], then the base transport with the
    request unchanged, and the result of the base transport comes back
    unchanged through [D1], ..., [Dn]. *)
Theorem buildTransport_call_order (calls : list (list nat)) (w : World) :
  let '(b0, w0) := New w in
  let b := registerAll (map (map spyDecorator) calls) b0 in
  let ds := concat calls in
  let '(t, _, w1) := buildTransport b w0 in
  exists rt,
    t = Some rt
    /\ events w1 = events w ++ map EvWrap ds
    /\ forall r w2,
         RoundTrip rt r w2 =
         (let '(res, w3) := DefaultTransport r (recordAll (map EvEnter (rev ds)) w2) in
          (res, recordAll (map EvExit ds) w3)).
Proof.
  unfold New, make_Header, bind, get, modify, ret; simpl.
  set (b0 := mkBuilder _ _ _ _ _ _ _ _ _ _ _ _).
  set (w0 := set_nextLoc _ _).
  destruct (registerAll_fields (map (map spyDecorator) calls) b0) as (Hw & Hf & _).
  simpl in Hw, Hf.
  unfold buildTransport. rewrite Hf; simpl. rewrite Hw.
  assert (Hc : concat (map (map spyDecorator) calls) = map spyDecorator (concat calls)).
  { symmetry. apply concat_map. }
  rewrite Hc. unfold bind, ret. rewrite wrapAll_spies.
  eexists. split; [reflexivity|]. split; [reflexivity|].
  intros r w2. unfold RoundTrip. apply spyNest_run.
Qed.

(** C4 (the code at the failing input). Two [buildTransport] calls on one
    builder with no [WrapTransport] in between: the flag is 1 after the
    first call, and the second call applies every decorator to the base
    transport again instead of returning the cached transport. *)
Theorem buildTransport_folds_again (ws : list Decorator) (w : World) :
  let '(b0, w0) := New w in
  let b := WrapTransport ws b0 in
  let '(t1, b1, w1) := buildTransport b w0 in
  let '(t2, b2, w2) := buildTransport b1 w1 in
  rebuildTransport b1 = 1
  /\ is_Some (cachedTransport b1)
  /\ (t2, w2) = (let '(t, w') := wrapAll ws DefaultTransport w1 in (Some t, w')).
Proof.
  unfold New, make_Header, bind, get, modify, ret; simpl.
  unfold buildTransport; simpl. unfold bind, ret.
  destruct (wrapAll ws DefaultTransport _) as [t1 w1]; simpl.
  destruct (wrapAll ws DefaultTransport w1) as [t2 w2]; simpl.
  eauto.
Qed.

(** *** The Timeout decorator *)


(** C3 (the code at the failing input). When the incoming context already
    carries a deadline at most [now + D], no derived context is made, the
    deferred [cancel] is the nil function, and the call of the decorated
    transport ends in a panic, whatever the inner transport did. *)
Theorem TimeoutTransport_nil_cancel_panics
    (d : Duration) (next : RoundTripper) (w0 : World) (r : Request) (w : World)
    (deadline : Time) :
  ctxDeadline (reqCtx r) = Some deadline ->
  deadline <= clock w + effectiveDuration d ->
  fst (RoundTrip (decorated (TimeoutTransport d) next w0) r w)
  = Panicked nilDereference.
Proof.
  intros Hdl Hle.
  unfold decorated, TimeoutTransport, Transport, RoundTrip, ret, Deadline; simpl.
  change (if d <=? 0 then Second * 5 else d) with (effectiveDuration d).
  rewrite Hdl; simpl. unfold bind, time_Now, get, ret; simpl.
  assert (Hn : (clock w + effectiveDuration d <? deadline) = false)
    by (apply Z.ltb_ge; lia).
  rewrite Hn. by destruct (next _ w).
Qed.

(** When a derived context is made, its cancel function is called on every
    exit: after a response, after an error and after a panic of the inner
    transport. *)
Lemma TimeoutTransport_releases
    (d : Duration) (next : RoundTripper) (w0 : World) (r : Request) (w : World) :
  match ctxDeadline (reqCtx r) with
  | Some deadline => clock w + effectiveDuration d < deadline
  | None => True
  end ->
  exists ctx',
    let '(res, w1) := RoundTrip next (WithContext r ctx') (set_nextScope S w) in
    RoundTrip (decorated (TimeoutTransport d) next w0) r w
    = (propagate res, set_released (fun l => l ++ [nextScope w]) w1)
    /\ ctxScopes ctx' = nextScope w :: ctxScopes (reqCtx r).
Proof.
  intros H.
  unfold decorated, TimeoutTransport, Transport, RoundTrip, ret, Deadline; simpl.
  change (if d <=? 0 then Second * 5 else d) with (effectiveDuration d).
  revert H. generalize (effectiveDuration d) as D. intros D H.
  destruct (ctxDeadline (reqCtx r)) as [dl|] eqn:Hdl; simpl.
  - unfold bind at 1 2; unfold time_Now, get, ret; simpl.
    assert (Hn : (clock w + D <? dl) = true) by (apply Z.ltb_lt; lia).
    rewrite Hn.
    unfold context_WithTimeout, context_WithDeadline, time_Now, bind, get, modify, ret;
      simpl. rewrite Hdl.
    assert (Hm : (dl <? clock w + D) = false) by (apply Z.ltb_ge; lia).
    rewrite Hm; simpl.
    exists (mkContext (Some (clock w + D)) (ctxTraceID (reqCtx r)) (ctxSpan (reqCtx r))
                      (nextScope w :: ctxScopes (reqCtx r))).
    destruct (next _ _) as [res w1]. split; reflexivity.
  - unfold context_WithTimeout, context_WithDeadline, time_Now, bind, get, modify, ret;
      simpl. rewrite Hdl; simpl.
    exists (mkContext (Some (clock w + D)) (ctxTraceID (reqCtx r)) (ctxSpan (reqCtx r))
                      (nextScope w :: ctxScopes (reqCtx r))).
    destruct (next _ _) as [res w1]. split; reflexivity.
Qed.

(** *** The Trace decorator *)

Lemma header_at_Set l k v w :
  header_at l (snd (http_Header_Set l k v w))
  = <[CanonicalMIMEHeaderKey k := [v]]> (header_at l w).
Proof.
  unfold http_Header_Set, modify, header_at; simpl.
  by rewrite lookup_insert_eq.
Qed.

(** C5 (as amended). For every request the Trace decorator starts a new
    span named [client_request], sets the trace propagation header in the
    request's header map, binds the span's trace identifier into the
    context of the request it calls the inner transport with, and hands the
    inner result on. It does nothing after the inner call: the span it
    started is not ended by the decorator, on the success path and on the
    error path alike. *)
Theorem TraceTransport_behaviour (name : string) (r : Request) (w : World) :
  exists span ctx' w_in,
    (forall next w0,
        RoundTrip (decorated (TraceTransport name) next w0) r w
        = (let '(res, w') := RoundTrip next (WithContext r ctx') w_in in
           (propagate res, w')))
    /\ spans w_in = spans w ++ [span]
    /\ spanEnded span = false
    /\ spanName span = "client_request"
    /\ spanTracer span = name
    /\ header_at (reqHeader r) w_in
       = <["Traceparent" := [traceparent (spanCtx span)]]> (header_at (reqHeader r) w)
    /\ traceIDFromContext ctx' = TraceID_String (scTraceID (spanCtx span))
    /\ ctxSpan ctx' = Some (spanCtx span)
    /\ ctxDeadline ctx' = ctxDeadline (reqCtx r).
Proof.
  unfold decorated, TraceTransport, otel_Tracer, Transport, RoundTrip; simpl.
  unfold tracer_Start, propagator_Inject, bind, get, modify, ret; simpl.
  set (tid := match ctxSpan (reqCtx r) with
              | Some p => if SpanContext_IsValid p then scTraceID p else (idgen w + 1)%N
              | None => (idgen w + 1)%N
              end).
  assert (Hv : SpanContext_IsValid (mkSpanContext tid (idgen w + 2) true) = true).
  { unfold SpanContext_IsValid; simpl. apply andb_true_iff. split.
    - apply negb_true_iff, N.eqb_neq. subst tid.
      destruct (ctxSpan (reqCtx r)) as [p|]; [|lia].
      destruct (SpanContext_IsValid p) eqn:Hp; [|lia].
      unfold SpanContext_IsValid in Hp. apply andb_true_iff in Hp as [Hp _].
      by apply negb_true_iff, N.eqb_neq in Hp.
    - apply negb_true_iff, N.eqb_neq. lia. }
  rewrite Hv.
  eexists _, _, _. split.
  { intros next w0. reflexivity. }
  repeat split.
  unfold header_at; simpl. by rewrite lookup_insert_eq.
Qed.

(** *** The Logging decorator *)

(** What one call through the Logging decorator does. *)
Lemma LoggingTransport_run
    (name : string) (next : RoundTripper) (w0 : World) (r : Request) (w : World) :
  let '(res, w1) := RoundTrip next r w in
  let '(out, w2) := RoundTrip (decorated (LoggingTransport name) next w0) r w in
  out = propagate res
  /\ exists e,
      sink w2 = sink w1 ++ [e]
      /\ entryMsg e = "client_request"
      /\ entryTime e = clock w1
      /\ entryFields e =
         logger w1
         ++ [("host", FString (reqHost r));
             ("host", FString (urlPath (reqURL r)));
             ("service", FString name);
             ("start", FString (Time_Format (clock w)));
             ("elapsed", FInt (Milliseconds (clock w1 - clock w)));
             ("trace_id", FString (traceIDFromContext (reqCtx r)))]
         ++ match out with
            | Returned (Some rp) _ => [("statuscode", FInt (StatusCode rp))]
            | _ => []
            end
      /\ logger w2 = entryFields e.
Proof.
  unfold decorated, LoggingTransport, Transport, RoundTrip; simpl.
  unfold bind at 1 2; unfold time_Now, get at 1, ret at 1; simpl.
  destruct (next r w) as [res w1].
  unfold bind, zap_Info, zap_With, time_Now, get, modify, ret; simpl.
  destruct res as [[rp|] [err|]|v]; simpl;
    (split; [reflexivity|]); eexists; repeat split; simpl;
    rewrite <- ?app_assoc; reflexivity.
Qed.

(** C6. For every request the Logging decorator writes exactly one entry,
    after the inner call has completed (returned a response, returned an
    error, or panicked); the entry carries, after the fields the global
    logger already had, the host, the path, the service name, the formatted
    start time, the elapsed milliseconds, the trace identifier bound in the
    request's context (empty when none is), and the status code when the
    decorator hands a response on. The path is logged under the key
    [host]. *)
Theorem LoggingTransport_one_entry
    (name : string) (next : RoundTripper) (w0 : World) (r : Request) (w : World) :
  let '(res, w1) := RoundTrip next r w in
  let '(out, w2) := RoundTrip (decorated (LoggingTransport name) next w0) r w in
  out = propagate res
  /\ exists e,
      sink w2 = sink w1 ++ [e]
      /\ entryMsg e = "client_request"
      /\ entryTime e = clock w1
      /\ entryFields e =
         logger w1
         ++ [("host", FString (reqHost r));
             ("host", FString (urlPath (reqURL r)));
             ("service", FString name);
             ("start", FString (Time_Format (clock w)));
             ("elapsed", FInt (Milliseconds (clock w1 - clock w)));
             ("trace_id", FString (traceIDFromContext (reqCtx r)))]
         ++ match out with
            | Returned (Some rp) _ => [("statuscode", FInt (StatusCode rp))]
            | _ => []
            end
      /\ logger w2 = entryFields e.
Proof.
  unfold decorated, LoggingTransport, Transport, RoundTrip; simpl.
  unfold bind at 1 2; unfold time_Now, get at 1, ret at 1; simpl.
  destruct (next r w) as [res w1].
  unfold bind, zap_Info, zap_With, time_Now, get, modify, ret; simpl.
  destruct res as [[rp|] [err|]|v]; simpl;
    (split; [reflexivity|]); eexists; repeat split; simpl;
    rewrite <- ?app_assoc; reflexivity.
Qed.

Lemma chain_extends name l rs es l' :
  chain name l rs es l' ->
  (exists more, l' = l ++ more)
  /\ forall j ej, es !! j = Some ej -> exists more, entryFields ej = l ++ more.
Proof.
  induction 1 as [l|l r rs e es l' more He Hh Hs Hc [[m1 IH1] IH2]].
  - split; [exists []; by rewrite app_nil_r|]. intros j ej Hj. by destruct j.
  - split.
    + exists (more ++ m1). rewrite IH1, He. by rewrite app_assoc.
    + intros [|j] ej Hj; simpl in Hj.
      * injection Hj as <-. eauto.
      * destruct (IH2 j ej Hj) as [m2 Hm]. exists (more ++ m2).
        rewrite Hm, He. by rewrite app_assoc.
Qed.

Lemma chain_length name l rs es l' :
  chain name l rs es l' -> length es = length rs.
Proof. induction 1; simpl; congruence. Qed.

Lemma chain_carries name l rs es l' :
  chain name l rs es l' ->
  forall i j ri ej,
    (i <= j)%nat -> rs !! i = Some ri -> es !! j = Some ej ->
    ("host", FString (reqHost ri)) ∈ entryFields ej
    /\ ("service", FString name) ∈ entryFields ej.
Proof.
  induction 1 as [l|l r rs e es l' more He Hh Hs Hc IH]; intros i j ri ej Hij Hi Hj.
  - by destruct i.
  - destruct i as [|i]; simpl in Hi.
    + injection Hi as <-. destruct j as [|j]; simpl in Hj.
      * injection Hj as <-. rewrite He. split; apply elem_of_app; by right.
      * destruct (chain_extends _ _ _ _ _ Hc) as [_ Hext].
        destruct (Hext j ej Hj) as [m Hm]. rewrite Hm, He.
        split; apply elem_of_app; left; apply elem_of_app; by right.
    + destruct j as [|j]; [lia|]. simpl in Hj.
      apply (IH i j); [lia|done|done].
Qed.

Lemma runAll_logging_chain name next w0 rs :
  (forall r w, logger (snd (next r w)) = logger w /\ sink (snd (next r w)) = sink w) ->
  forall w,
    exists es,
      sink (snd (runAll (decorated (LoggingTransport name) next w0) rs w)) = sink w ++ es
      /\ chain name (logger w) rs es
           (logger (snd (runAll (decorated (LoggingTransport name) next w0) rs w))).
Proof.
  intros Hnext. induction rs as [|r rs IH]; intros w; simpl.
  - exists []. rewrite app_nil_r. split; [done|constructor].
  - unfold bind.
    pose proof (LoggingTransport_run name next w0 r w) as Hrun.
    pose proof (Hnext r w) as [Hl Hs].
    unfold RoundTrip in *.
    destruct (next r w) as [res w1]; simpl in Hl, Hs.
    destruct (decorated (LoggingTransport name) next w0 r w) as [out w2].
    destruct Hrun as (_ & e & Hsink & _ & _ & Hf & Hlog).
    destruct (IH w2) as (es & Hes & Hchain).
    exists (e :: es). split.
    + rewrite Hes, Hsink, Hs. by rewrite <- app_assoc.
    + rewrite Hlog in Hchain. rewrite Hl in Hf.
      eapply chain_cons; [exact Hf| | |exact Hchain]; apply elem_of_app; left.
      * constructor 1.
      * do 2 constructor 2. constructor 1.
Qed.

(** C9. Every request executed through the Logging decorator leaves the
    package-global logger replaced by a child that carries the request's
    fields; so, over any sequence of requests (the inner transport leaving
    the logger and the sink alone), there is one entry per request, the
    entry of a request carries the host and service fields of every request
    before it as well as its own, and the global logger ends up with the
    fields of them all. *)
Theorem logger_accumulates
    (name : string) (next : RoundTripper) (w0 : World) (rs : list Request) (w : World) :
  (forall r w, logger (snd (next r w)) = logger w /\ sink (snd (next r w)) = sink w) ->
  let w' := snd (runAll (decorated (LoggingTransport name) next w0) rs w) in
  exists es,
    sink w' = sink w ++ es
    /\ length es = length rs
    /\ (forall i j ri ej,
          (i <= j)%nat -> rs !! i = Some ri -> es !! j = Some ej ->
          ("host", FString (reqHost ri)) ∈ entryFields ej
          /\ ("service", FString name) ∈ entryFields ej)
    /\ (forall j ej, es !! j = Some ej -> exists more, logger w' = entryFields ej ++ more)
    /\ (forall i ri, rs !! i = Some ri -> ("host", FString (reqHost ri)) ∈ logger w').
Proof.
  intros Hnext w'.
  destruct (runAll_logging_chain name next w0 rs Hnext w) as (es & Hs & Hc).
  fold w' in Hs, Hc.
  exists es. split; [done|]. split; [by eapply chain_length|].
  split; [by eapply chain_carries|].
  assert (Hlast : forall j ej, es !! j = Some ej -> exists more, logger w' = entryFields ej ++ more).
  { clear Hs. revert Hc. generalize (logger w) as l. generalize (logger w') as l'.
    intros l' l Hc. induction Hc as [l|l r rs e es l' more He Hh Hsv Hc IH];
      intros j ej Hj.
    - by destruct j.
    - destruct j as [|j]; simpl in Hj.
      + injection Hj as <-. by destruct (chain_extends _ _ _ _ _ Hc) as [Hm _].
      + eauto. }
  split; [exact Hlast|].
  intros i ri Hi.
  assert (Hlen : length es = length rs) by (by eapply chain_length).
  destruct (lookup_lt_is_Some_2 es i) as [ei Hei].
  { rewrite Hlen. eapply lookup_lt_Some; eauto. }
  destruct (Hlast i ei Hei) as [more ->].
  apply elem_of_app; left.
  by destruct (chain_carries _ _ _ _ _ Hc i i ri ei (le_n i) Hi Hei).
Qed.

(** *** Do *)

Lemma buildMethod_nonempty b : String.eqb (buildMethod b) "" = false.
Proof.
  unfold buildMethod. destruct (String.eqb (method b) "") eqn:H; [reflexivity|exact H].
Qed.

Lemma buildTransport_keeps b w :
  let b' := snd (fst (buildTransport b w)) in
  baseURL b' = baseURL b /\ url b' = url b /\ method b' = method b
  /\ codec b' = codec b /\ resp b' = resp b /\ req b' = req b
  /\ values b' = values b /\ header b' = header b
  /\ transportWrappers b' = transportWrappers b.
Proof.
  unfold buildTransport. destruct (negb (rebuildTransport b =? 1)); simpl.
  - done.
  - unfold bind, ret. by destruct (wrapAll _ _ w).
Qed.

(** What [Do] does once the body is encoded and the request constructed:
    the request the client sends points at the builder's header map, which
    holds what it held; [Do] itself adds nothing but closing the response
    body, and leaves the builder's configuration as it was. *)
Lemma Do_reaches_client b ctx w body u :
  encodedBody b = inl body ->
  validMethod (buildMethod b) = true ->
  url_Parse (buildURL b) = inl u ->
  let r := mkRequest (buildMethod b) u (urlHost u) (header b) body ctx in
  let w_in := set_nextLoc S w in
  let '(client, _, w_t) := buildClient b w_in in
  let '(_, w_out) := Client_Do client r w_t in
  let '(_, b1, w1) := Do b ctx w in
  (w1 = w_out \/ exists id, w1 = set_closedBodies (fun l => l ++ [id]) w_out)
  /\ header b1 = header b
  /\ buildURL b1 = buildURL b
  /\ buildMethod b1 = buildMethod b
  /\ encodedBody b1 = encodedBody b.
Proof.
  intros Hbody Hm Hu; simpl.
  unfold Do. fold (encodedBody b). rewrite Hbody.
  unfold http_NewRequestWithContext, bind at 1.
  rewrite buildMethod_nonempty, Hm, Hu; simpl.
  unfold make_Header, bind at 1 2 3, get, modify, ret at 1; simpl.
  unfold setHeader; simpl.
  unfold buildClient, bind at 1 2 3.
  pose proof (buildTransport_keeps b (set_nextLoc S w)) as Hk.
  destruct (buildTransport b (set_nextLoc S w)) as [[t b'] w_t]; simpl in Hk.
  destruct Hk as (Hk1 & Hk2 & Hk3 & Hk4 & Hk5 & Hk6 & Hk7 & Hk8 & Hk9).
  assert (Hsame : buildURL b' = buildURL b /\ buildMethod b' = buildMethod b
                  /\ encodedBody b' = inl body).
  { rewrite <- Hbody. unfold buildURL, buildMethod, encodedBody, buildCodec.
    by rewrite Hk1, Hk2, Hk3, Hk4, Hk6, Hk7. }
  unfold ret, bind; simpl.
  destruct (Client_Do _ _ w_t) as [cres w_out].
  destruct cres as [rp|e|v]; simpl.
  - rewrite Hk5. destruct (resp b) as [target|].
    + destruct (Decode (buildCodec b) (respBody rp) target) as [err target'].
      unfold Body_Close, modify; simpl.
      split; [right; eauto|]. split; [done|]. exact Hsame.
    + unfold Body_Close, modify; simpl.
      split; [right; eauto|]. split; [done|]. exact Hsame.
  - split; [by left|]. split; [done|]. exact Hsame.
  - split; [by left|]. split; [done|]. exact Hsame.
Qed.

(** C7. When a request value is set and the codec fails to encode it, [Do]
    returns that error and nothing else happens: the world is the one [Do]
    started in and the builder is untouched, whatever the base transport
    and the decorators are, so no transport was built or invoked. When no
    request value is set, [Do] does not depend on the codec's [Encode]:
    putting any other function in its place changes neither the result nor
    the world nor the decoded response. *)
Theorem Do_encode_gate (b : builder) (ctx : Context) (w : World) :
  (forall v data err,
      req b = Some v ->
      Encode (buildCodec b) v = (data, Some err) ->
      Do b ctx w = (DoReturn (Some err), b, w))
  /\ (req b = None ->
      forall encode',
        let b' := builder_Codec (mkCodec (Decode (buildCodec b)) encode') b in
        let '(res, b1, w1) := Do b ctx w in
        let '(res', b1', w1') := Do b' ctx w in
        res' = res /\ w1' = w1 /\ resp b1' = resp b1).
Proof.
  split.
  - intros v data err Hreq Henc. unfold Do. rewrite Hreq, Henc. reflexivity.
  - intros Hreq encode'; simpl. unfold Do; simpl. rewrite Hreq.
    change (buildURL (builder_Codec _ b)) with (buildURL b).
    change (buildMethod (builder_Codec _ b)) with (buildMethod b).
    unfold bind.
    destruct (http_NewRequestWithContext ctx (buildMethod b) (buildURL b) None w)
      as [[httpReq|err] w0]; [|by unfold ret].
    unfold buildClient, buildTransport; simpl.
    destruct (negb (rebuildTransport b =? 1)); unfold bind, ret; simpl.
    + destruct (Client_Do _ _ w0) as [[rp|e|v] w2]; simpl; [|done|done].
      destruct (resp b) as [target|]; [|done].
      by destruct (Decode (buildCodec b) (respBody rp) target).
    + destruct (wrapAll (transportWrappers b) DefaultTransport w0) as [t w1]; simpl.
      destruct (Client_Do _ _ w1) as [[rp|e|v] w2]; simpl; [|done|done].
      destruct (resp b) as [target|]; [|done].
      by destruct (Decode (buildCodec b) (respBody rp) target).
Qed.

(** C10. [Do] puts the address of the builder's own header map into the
    request it sends, no copy is made: what the transport chain wrote into
    the request's headers is in the builder's map when [Do] has returned
    ([Do] itself only closes the response body after the round trip), and a
    second [Do] of the same builder sends a request that points at that same
    map, holding whatever the first call left there. *)
Theorem Do_shares_builder_header
    (b : builder) (ctx1 ctx2 : Context) (w : World) (body : option Bytes) (u : url_URL) :
  encodedBody b = inl body ->
  validMethod (buildMethod b) = true ->
  url_Parse (buildURL b) = inl u ->
  let sent ctx := mkRequest (buildMethod b) u (urlHost u) (header b) body ctx in
  let closes w' w_out :=
    w' = w_out \/ exists id, w' = set_closedBodies (fun l => l ++ [id]) w_out in
  let '(client1, _, w_t1) := buildClient b (set_nextLoc S w) in
  let '(_, w_out1) := Client_Do client1 (sent ctx1) w_t1 in
  let '(_, b1, w1) := Do b ctx1 w in
  closes w1 w_out1
  /\ headers w1 = headers w_out1
  /\ header b1 = header b
  /\ let '(client2, _, w_t2) := buildClient b1 (set_nextLoc S w1) in
     let '(_, w_out2) := Client_Do client2 (sent ctx2) w_t2 in
     let '(_, b2, w2) := Do b1 ctx2 w1 in
     headers (set_nextLoc S w1) = headers w_out1
     /\ closes w2 w_out2
     /\ headers w2 = headers w_out2
     /\ header b2 = header b.
Proof.
  intros Hbody Hm Hu; simpl.
  pose proof (Do_reaches_client b ctx1 w body u Hbody Hm Hu) as H1; simpl in H1.
  destruct (buildClient b (set_nextLoc S w)) as [[client1 bc1] w_t1].
  destruct (Client_Do client1 _ w_t1) as [cres1 w_out1].
  destruct (Do b ctx1 w) as [[res1 b1] w1].
  destruct H1 as (Hw1 & Hh1 & Hu1 & Hm1 & Hb1).
  assert (Hhs : headers w1 = headers w_out1).
  { destruct Hw1 as [->|[id ->]]; reflexivity. }
  split; [exact Hw1|]. split; [exact Hhs|]. split; [exact Hh1|].
  rewrite <- Hb1 in Hbody. rewrite <- Hm1 in Hm. rewrite <- Hu1 in Hu.
  pose proof (Do_reaches_client b1 ctx2 w1 body u Hbody Hm Hu) as H2; simpl in H2.
  rewrite Hm1, Hh1 in H2.
  destruct (buildClient b1 (set_nextLoc S w1)) as [[client2 bc2] w_t2].
  destruct (Client_Do client2 _ w_t2) as [cres2 w_out2].
  destruct (Do b1 ctx2 w1) as [[res2 b2] w2].
  destruct H2 as (Hw2 & Hh2 & _).
  split; [exact Hhs|]. split; [exact Hw2|].
  split; [destruct Hw2 as [->|[id ->]]; reflexivity|].
  by rewrite Hh2.
Qed.

(** *** URL assembly *)

Lemma append_cons c (s t : string) : String c s +:+ t = String c (s +:+ t).
Proof. reflexivity. Qed.

Lemma append_nil_l (s : string) : "" +:+ s = s.
Proof. reflexivity. Qed.

Lemma append_nil_r (s : string) : s +:+ "" = s.
Proof. induction s as [|c s IH]; [done|]. by rewrite append_cons, IH. Qed.

Lemma append_assoc (a b c : string) : (a +:+ b) +:+ c = a +:+ b +:+ c.
Proof. induction a as [|x a IH]; [done|]. by rewrite !append_cons, IH. Qed.

Lemma length_append (a b : string) :
  String.length (a +:+ b) = (String.length a + String.length b)%nat.
Proof. induction a as [|x a IH]; [done|]. rewrite append_cons; simpl. by rewrite IH. Qed.

Lemma string_forallb_append p (a b : string) :
  string_forallb p (a +:+ b) = string_forallb p a && string_forallb p b.
Proof.
  induction a as [|x a IH]; [done|]. rewrite append_cons; simpl.
  rewrite IH. by rewrite andb_assoc.
Qed.

Lemma string_forallb_impl (p q : ascii -> bool) s :
  (forall c, p c = true -> q c = true) ->
  string_forallb p s = true -> string_forallb q s = true.
Proof.
  intros Hpq. induction s as [|c s IH]; simpl; [done|].
  intros [Hc Hs]%andb_true_iff. rewrite (Hpq c Hc). by apply IH.
Qed.

Lemma string_forallb_concat p sep l :
  string_forallb p sep = true ->
  Forall (fun s => string_forallb p s = true) l ->
  string_forallb p (String.concat sep l) = true.
Proof.
  intros Hsep. induction 1 as [|x l Hx Hl IH]; simpl; [done|].
  destruct l as [|y l]; [done|].
  rewrite !string_forallb_append, Hx, Hsep. exact IH.
Qed.

Ltac each_ascii c :=
  destruct c as [[] [] [] [] [] [] [] []].

Lemma upperhex_unhex (c : ascii) :
  ishex (upperhex (N.shiftr (N_of_ascii c) 4)) = true
  /\ ishex (upperhex (N.land (N_of_ascii c) 15)) = true
  /\ ascii_of_N (N.lor (N.shiftl (unhex (upperhex (N.shiftr (N_of_ascii c) 4))) 4)
                       (unhex (upperhex (N.land (N_of_ascii c) 15)))) = c.
Proof. each_ascii c; vm_compute; done. Qed.

Lemma upperhex_escaped (c : ascii) :
  escapedChar (upperhex (N.shiftr (N_of_ascii c) 4)) = true
  /\ escapedChar (upperhex (N.land (N_of_ascii c) 15)) = true.
Proof. each_ascii c; vm_compute; done. Qed.

Lemma unescaped_plain (c : ascii) :
  shouldEscape c = false -> Ascii.eqb c "%" = false /\ Ascii.eqb c "+" = false.
Proof. each_ascii c; vm_compute; intros; done. Qed.

Lemma escapedChar_uriChar (c : ascii) : escapedChar c = true -> uriChar c = true.
Proof. each_ascii c; vm_compute; intros; done. Qed.

(** Escaping can be undone. *)
Lemma url_QueryUnescape_QueryEscape (s : string) :
  url_QueryUnescape (url_QueryEscape s) = Some s.
Proof.
  induction s as [|c s IH]; [done|].
  cbn [url_QueryEscape]. destruct (shouldEscape c) eqn:He.
  - destruct (Ascii.eqb c " ") eqn:Hsp.
    + apply Ascii.eqb_eq in Hsp as ->. cbn. by rewrite IH.
    + destruct (upperhex_unhex c) as (H1 & H2 & H3).
      cbn [url_QueryUnescape]. change (Ascii.eqb "%" "%") with true. cbv iota.
      rewrite H1, H2, IH, H3. reflexivity.
  - destruct (unescaped_plain c He) as [Hp Hq].
    cbn [url_QueryUnescape]. by rewrite Hp, IH, Hq.
Qed.

(** An escaped component has only unreserved characters, [%] and [+]. *)
Lemma url_QueryEscape_chars (s : string) :
  string_forallb escapedChar (url_QueryEscape s) = true.
Proof.
  induction s as [|c s IH]; [done|].
  cbn [url_QueryEscape]. destruct (shouldEscape c) eqn:He.
  - destruct (Ascii.eqb c " ").
    + cbn. exact IH.
    + destruct (upperhex_escaped c) as [H1 H2].
      cbn [string_forallb]. rewrite H1, H2, IH. reflexivity.
  - cbn [string_forallb]. unfold escapedChar at 1. rewrite He, IH. reflexivity.
Qed.

Lemma pairString_nonempty kv : (0 < String.length (pairString kv))%nat.
Proof. unfold pairString. rewrite !length_append; simpl. lia. Qed.

Lemma writePair_nonempty buf kv : (0 < String.length (writePair buf kv))%nat.
Proof.
  unfold writePair. rewrite length_append.
  pose proof (pairString_nonempty kv) as H. unfold pairString in H. lia.
Qed.

Lemma fold_writePair l buf :
  (0 < String.length buf)%nat ->
  fold_left writePair l buf =
  match l with
  | [] => buf
  | _ => buf +:+ "&" +:+ String.concat "&" (map pairString l)
  end.
Proof.
  revert buf. induction l as [|kv l IH]; intros buf Hbuf; [done|].
  cbn [fold_left]. rewrite IH by apply writePair_nonempty.
  unfold writePair. apply Nat.ltb_lt in Hbuf. rewrite Hbuf.
  fold (pairString kv). destruct l as [|kv' l].
  - cbn. by rewrite append_assoc.
  - cbn [map String.concat]. by rewrite !append_assoc.
Qed.

(** The loop of [Encode] joins the escaped pairs with ampersands. *)
Lemma url_Values_Encode_concat v :
  url_Values_Encode v = String.concat "&" (map pairString (encodePairs v)).
Proof.
  unfold url_Values_Encode. destruct (encodePairs v) as [|kv l]; [done|].
  cbn [fold_left]. rewrite fold_writePair by apply writePair_nonempty.
  unfold writePair; cbn [String.length Nat.ltb Nat.leb]. rewrite append_nil_l.
  fold (pairString kv). by destruct l.
Qed.

Lemma sortedKeys_elem_of v k : k ∈ sortedKeys v <-> k ∈ dom v.
Proof.
  unfold sortedKeys. rewrite merge_sort_Permutation. apply elem_of_elements.
Qed.

Lemma sortedKeys_NoDup v : NoDup (sortedKeys v).
Proof.
  unfold sortedKeys. rewrite merge_sort_Permutation. apply NoDup_elements.
Qed.

Lemma sortedKeys_StronglySorted v : StronglySorted String.le (sortedKeys v).
Proof. apply StronglySorted_merge_sort; apply _. Qed.

Lemma StronglySorted_groups {A B} (R : relation A) `{!Reflexive R}
    (f : A -> list B) (keys : list A) :
  StronglySorted R keys ->
  StronglySorted R (map fst (flat_map (fun k => map (fun x => (k, x)) (f k)) keys)).
Proof.
  induction 1 as [|k keys Hs IH Hk]; simpl; [constructor|].
  rewrite map_app. apply StronglySorted_app_2; [| |exact IH].
  - intros x y Hx Hy.
    apply list_elem_of_fmap in Hx as [[k1 x1] [-> Hx]].
    apply list_elem_of_fmap in Hx as [x2 [[= -> ->] _]]; simpl.
    apply list_elem_of_fmap in Hy as [[k2 y2] [-> Hy]].
    apply list_elem_of_In, in_flat_map in Hy as [k3 [Hk3 Hy]].
    apply in_map_iff in Hy as [y3 [[= -> ->] _]]; simpl.
    rewrite Forall_forall in Hk. apply Hk. by apply list_elem_of_In.
  - induction (f k) as [|x l IHl]; simpl; constructor; [exact IHl|].
    clear IHl. induction l; simpl; constructor; [reflexivity|done].
Qed.

Lemma underKey_group (k k' : string) (xs : list string) :
  underKey k (map (fun x => (k', x)) xs) = if String.eqb k' k then xs else [].
Proof.
  unfold underKey. induction xs as [|x xs IH]; simpl.
  - by destruct (String.eqb k' k).
  - destruct (String.eqb k' k); simpl; [by rewrite IH|exact IH].
Qed.

Lemma underKey_app k l1 l2 : underKey k (l1 ++ l2) = underKey k l1 ++ underKey k l2.
Proof. unfold underKey. by rewrite List.filter_app, map_app. Qed.

Lemma underKey_flat_map k (f : string -> list string) keys :
  NoDup keys ->
  underKey k (flat_map (fun k' => map (fun x => (k', x)) (f k')) keys)
  = if bool_decide (k ∈ keys) then f k else [].
Proof.
  induction 1 as [|k' keys Hnotin Hnd IH]; simpl; [done|].
  rewrite underKey_app, underKey_group, IH.
  destruct (String.eqb_spec k' k) as [->|Hne].
  - rewrite (bool_decide_eq_false_2 (k ∈ keys)) by done.
    rewrite bool_decide_eq_true_2 by constructor. by rewrite app_nil_r.
  - simpl. destruct (bool_decide (k ∈ keys)) eqn:Hin.
    + apply bool_decide_eq_true in Hin.
      rewrite bool_decide_eq_true_2; [done|by constructor].
    + apply bool_decide_eq_false in Hin.
      rewrite bool_decide_eq_false_2; [done|].
      intros [Heq|Hk]%elem_of_cons; [by subst|done].
Qed.

(** The values [Encode] writes under a key are the values the map holds
    for it, in their order. *)
Lemma underKey_encodePairs k v : underKey k (encodePairs v) = default [] (v !! k).
Proof.
  unfold encodePairs.
  rewrite (underKey_flat_map k (fun k' => default [] (v !! k'))) by apply sortedKeys_NoDup.
  destruct (bool_decide (k ∈ sortedKeys v)) eqn:Hin; [done|].
  apply bool_decide_eq_false in Hin. rewrite sortedKeys_elem_of in Hin.
  apply not_elem_of_dom in Hin. by rewrite Hin.
Qed.

Lemma addQueries_values kvs b k :
  default [] (values (addQueries kvs b) !! k)
  = default [] (values b !! k) ++ underKey k kvs.
Proof.
  revert b. induction kvs as [|[k0 v0] kvs IH]; intros b.
  - by rewrite app_nil_r.
  - unfold addQueries in *. cbn [fold_left]. rewrite IH.
    unfold QueryString, url_Values_Add, underKey; cbn [values fst snd List.filter].
    destruct (String.eqb_spec k0 k) as [->|Hne].
    + rewrite lookup_insert_eq; cbn. by rewrite <- app_assoc.
    + by rewrite lookup_insert_ne.
Qed.

Lemma addQueries_empty kvs b :
  values (addQueries kvs b) = ∅ <-> values b = ∅ /\ kvs = [].
Proof.
  revert b. induction kvs as [|[k0 v0] kvs IH]; intros b.
  - simpl. split; [done|by intros [H _]].
  - unfold addQueries in *. cbn [fold_left]. rewrite IH.
    unfold QueryString, url_Values_Add; cbn [values fst snd].
    split; [|by intros [_ H]]. intros [H _]. by apply insert_non_empty in H.
Qed.

Lemma pairString_uriChars kv : uriCharsOnly (pairString kv) = true.
Proof.
  unfold uriCharsOnly, pairString. rewrite !string_forallb_append.
  rewrite !(string_forallb_impl escapedChar uriChar _ escapedChar_uriChar
              (url_QueryEscape_chars _)).
  reflexivity.
Qed.

Lemma url_Values_Encode_uriChars v : uriCharsOnly (url_Values_Encode v) = true.
Proof.
  rewrite url_Values_Encode_concat. apply string_forallb_concat; [done|].
  apply Forall_forall. intros s [kv [-> _]]%list_elem_of_fmap. apply pairString_uriChars.
Qed.

Lemma buildURL_eq b :
  buildURL b =
  baseURL b +:+ url b
  +:+ (if bool_decide (values b = ∅) then "" else "?" +:+ url_Values_Encode (values b)).
Proof.
  unfold buildURL.
  assert (Hbase : (if negb (String.eqb (baseURL b) "") then baseURL b +:+ url b else url b)
                  = baseURL b +:+ url b).
  { destruct (String.eqb_spec (baseURL b) "") as [->|]; reflexivity. }
  rewrite Hbase.
  destruct (bool_decide (values b = ∅)) eqn:Hv.
  - apply bool_decide_eq_true in Hv. rewrite Hv, map_size_empty; simpl.
    by rewrite append_nil_r.
  - apply bool_decide_eq_false in Hv.
    assert (Hs : Nat.eqb (size (values b)) 0 = false).
    { apply Nat.eqb_neq. by rewrite map_size_empty_iff. }
    rewrite Hs; simpl. by rewrite append_assoc.
Qed.

(** C8 (as amended). The URL [Do] requests is the base URL followed by the
    URL, followed, when the builder holds at least one query parameter, by
    [?] and the encoded query string. The query string is the [key=value]
    pairs joined by ampersands, in the order of the sorted keys; under each
    key all the values added for it appear, in the order they were added;
    keys and values are percent-encoded (escaping can be undone, and leaves
    only unreserved characters, [%] and [+]). The base URL and the URL are
    copied as they are: the result consists of URI characters exactly when
    they do. *)
Theorem buildURL_assembly (b : builder) (kvs : list (string * string)) :
  buildURL b =
    baseURL b +:+ url b
    +:+ (if bool_decide (values b = ∅) then ""
         else "?" +:+ url_Values_Encode (values b))
  /\ (values (addQueries kvs b) = ∅ <-> values b = ∅ /\ kvs = [])
  /\ url_Values_Encode (values b)
     = String.concat "&" (map pairString (encodePairs (values b)))
  /\ StronglySorted String.le (map fst (encodePairs (values b)))
  /\ (forall k,
        underKey k (encodePairs (values (addQueries kvs b)))
        = default [] (values b !! k) ++ underKey k kvs)
  /\ (forall s,
        url_QueryUnescape (url_QueryEscape s) = Some s
        /\ string_forallb escapedChar (url_QueryEscape s) = true)
  /\ uriCharsOnly (buildURL b) = uriCharsOnly (baseURL b) && uriCharsOnly (url b).
Proof.
  split; [apply buildURL_eq|].
  split; [apply addQueries_empty|].
  split; [apply url_Values_Encode_concat|].
  split.
  { unfold encodePairs. apply StronglySorted_groups; [apply _|].
    apply sortedKeys_StronglySorted. }
  split.
  { intros k. rewrite underKey_encodePairs. apply addQueries_values. }
  split.
  { intros s. split; [apply url_QueryUnescape_QueryEscape|apply url_QueryEscape_chars]. }
  rewrite buildURL_eq. unfold uriCharsOnly. rewrite !string_forallb_append.
  destruct (bool_decide (values b = ∅)); simpl.
  - by rewrite andb_true_r.
  - pose proof (url_Values_Encode_uriChars (values b)) as He.
    unfold uriCharsOnly in He. rewrite append_nil_l, He. by rewrite andb_true_r.
Qed.

(* ===================================================================== *)
(** ** Further properties of the package *)
(* ===================================================================== *)

(** *** Decorators together *)

Lemma TraceTransport_run name next w0 r w :
  RoundTrip (decorated (TraceTransport name) next w0) r w
  = (let '(res, w') := RoundTrip next (WithContext r (tracedCtx name r w))
                         (tracedWorld name r w) in
     (propagate res, w')).
Proof.
  unfold decorated, TraceTransport, otel_Tracer, Transport, RoundTrip,
    tracedCtx, tracedWorld, tracedSpan.
  unfold tracer_Start, propagator_Inject, bind, get, modify, ret; simpl.
  destruct (SpanContext_IsValid _); simpl; by destruct (next _ _).
Qed.

Lemma tracedWorld_sink name r w : sink (tracedWorld name r w) = sink w.
Proof.
  unfold tracedWorld, tracer_Start, propagator_Inject, bind, get, modify, ret; simpl.
  destruct (SpanContext_IsValid _); reflexivity.
Qed.

Lemma tracedCtx_traceID name r w :
  traceIDFromContext (tracedCtx name r w)
  = TraceID_String (scTraceID (spanCtx (tracedSpan name r w))).
Proof. reflexivity. Qed.

(** X2. Whether the log entry of a request carries the trace identifier of
    the span started for it depends on the nesting. With the Trace decorator
    around the Logging decorator (Logging registered first), the entry's
    [trace_id] is the identifier of the span the Trace decorator started for
    this request. With the Logging decorator around the Trace decorator, the
    entry's [trace_id] is whatever the incoming context held (empty when
    nothing was bound), although a span was started. *)
Theorem trace_id_logged_when_Trace_is_outside
    (n1 n2 : string) (next : RoundTripper) (w0 w0' : World) (r : Request) (w : World) :
  (let '(_, w') :=
     RoundTrip (decorated (TraceTransport n2)
                  (decorated (LoggingTransport n1) next w0) w0') r w in
   exists e,
     last (sink w') = Some e
     /\ ("trace_id", FString (TraceID_String (scTraceID (spanCtx (tracedSpan n2 r w)))))
          ∈ entryFields e)
  /\ (let '(_, w') :=
        RoundTrip (decorated (LoggingTransport n1)
                     (decorated (TraceTransport n2) next w0) w0') r w in
      exists e,
        last (sink w') = Some e
        /\ ("trace_id", FString (traceIDFromContext (reqCtx r))) ∈ entryFields e
        /\ exists sp, last (spans (tracedWorld n2 r w)) = Some sp
                       /\ spanCtx sp = spanCtx (tracedSpan n2 r w)).
Proof.
  split.
  - rewrite TraceTransport_run.
    pose proof (LoggingTransport_run n1 next w0 (WithContext r (tracedCtx n2 r w))
                  (tracedWorld n2 r w)) as H.
    destruct (RoundTrip next _ _) as [res w1].
    destruct (RoundTrip (decorated (LoggingTransport n1) next w0) _ _) as [out w2].
    destruct H as (_ & e & Hs & _ & _ & Hf & _).
    exists e. split; [rewrite Hs; apply last_snoc|].
    rewrite Hf. apply elem_of_app; right. apply elem_of_app; left.
    do 5 constructor 2. constructor 1.
  - pose proof (LoggingTransport_run n1 (decorated (TraceTransport n2) next w0) w0' r w)
      as H.
    destruct (RoundTrip (decorated (TraceTransport n2) next w0) r w) as [res w1].
    destruct (RoundTrip (decorated (LoggingTransport n1) _ w0') r w) as [out w2].
    destruct H as (_ & e & Hs & _ & _ & Hf & _).
    exists e. split; [rewrite Hs; apply last_snoc|]. split.
    + rewrite Hf. apply elem_of_app; right. apply elem_of_app; left.
      do 5 constructor 2. constructor 1.
    + exists (tracedSpan n2 r w). split; [|reflexivity].
      unfold tracedWorld, tracedSpan, tracer_Start, propagator_Inject, bind, get,
        modify, ret; simpl.
      destruct (SpanContext_IsValid _); simpl; apply last_snoc.
Qed.

Lemma wrapAll_std_pure ks base w0 :
  snd (wrapAll (map toDecorator ks) base w0) = w0.
Proof.
  revert base. induction ks as [|k ks IH]; intros base; simpl; [done|].
  unfold bind. destruct k; simpl; apply IH.
Qed.

Lemma std_decorator_outcome k next w0 o :
  propagate o = o ->
  (forall r w, fst (RoundTrip next r w) = o
               \/ fst (RoundTrip next r w) = Panicked nilDereference) ->
  forall r w,
    fst (RoundTrip (decorated (toDecorator k) next w0) r w) = o
    \/ fst (RoundTrip (decorated (toDecorator k) next w0) r w) = Panicked nilDereference.
Proof.
  intros Ho Hnext r w. destruct k as [name|name|d]; simpl.
  - rewrite TraceTransport_run.
    destruct (Hnext (WithContext r (tracedCtx name r w)) (tracedWorld name r w)) as [H|H];
      destruct (RoundTrip next _ _) as [res w1]; simpl in *; subst res; auto.
  - pose proof (LoggingTransport_run name next w0 r w) as H.
    destruct (Hnext r w) as [Hn|Hn];
      destruct (RoundTrip next r w) as [res w1];
      destruct (RoundTrip (decorated (LoggingTransport name) next w0) r w) as [out w2];
      destruct H as [-> _]; simpl in *; subst res; auto.
  - destruct (RoundTrip (decorated (TimeoutTransport d) next w0) r w) as [o1 wf] eqn:E.
    cbn [fst].
    unfold decorated, TimeoutTransport, Transport, RoundTrip, ret in E; simpl in E.
    destruct (Deadline (reqCtx r)) as [dl ok].
    unfold bind at 1 in E.
    destruct (if negb ok then _ else _) as [tighten w1].
    unfold bind at 1 in E.
    destruct (if tighten then _ else _) as [[ctx [id|]] w2]; unfold bind in E.
    + destruct (Hnext (WithContext r ctx) w2) as [H|H]; unfold RoundTrip in H;
        destruct (next _ w2) as [res w3]; simpl in H; subst res;
        injection E as <- _; [left; exact Ho|right; reflexivity].
    + destruct (next _ w2) as [res w3]. injection E as <- _. by right.
Qed.

(** X3. The decorators of the package never turn the outcome of the inner
    call into another one. Over a base transport whose outcome is always
    the same [o] (a response with no error, an error with no response, or
    a panic), a request through any stack of Trace, Logging and Timeout
    decorators ends in that same outcome, with the same response or the same
    error, or in the panic of a Timeout decorator that made no derived
    context; and applying the stack has no effect of its own. *)
Theorem std_stack_keeps_outcome
    (ks : list stdDecorator) (base : RoundTripper) (o : Outcome) (w0 : World) :
  propagate o = o ->
  (forall r w, fst (RoundTrip base r w) = o) ->
  let '(t, w1) := wrapAll (map toDecorator ks) base w0 in
  w1 = w0
  /\ forall r w,
       fst (RoundTrip t r w) = o \/ fst (RoundTrip t r w) = Panicked nilDereference.
Proof.
  intros Ho Hbase.
  assert (Hq : forall r w, fst (RoundTrip base r w) = o
                           \/ fst (RoundTrip base r w) = Panicked nilDereference)
    by (intros; left; apply Hbase).
  clear Hbase. pose proof (wrapAll_std_pure ks base w0) as Hpure.
  destruct (wrapAll (map toDecorator ks) base w0) as [t w1] eqn:Hw.
  simpl in Hpure. split; [exact Hpure|].
  clear Hpure. revert base w0 t w1 Hq Hw.
  induction ks as [|k ks IH]; intros base w0 t w1 Hq Hw; simpl in Hw.
  - injection Hw as <- <-. exact Hq.
  - unfold bind in Hw.
    destruct (toDecorator k base w0) as [t1 w01] eqn:Hk.
    apply (IH t1 w01 t w1); [|exact Hw].
    intros r w.
    pose proof (std_decorator_outcome k base w0 o Ho Hq r w) as H.
    unfold decorated in H. rewrite Hk in H. exact H.
Qed.

(** *** Do, from the request to the result *)

(** X4. Once the body is encoded and the request constructed, what [Do]
    returns is decided by the client's round trip alone. When a response
    came back, its body is closed exactly once, whether or not decoding
    fails; with a response target, [Do] returns what the codec's [Decode]
    returned and the builder holds the target as [Decode] left it; without
    one it returns nil. The status code plays no part. When the round trip
    failed or panicked, [Do] hands that on, closes nothing and leaves the
    target alone. *)
Theorem Do_after_round_trip
    (b : builder) (ctx : Context) (w : World) (body : option Bytes) (u : url_URL) :
  encodedBody b = inl body ->
  validMethod (buildMethod b) = true ->
  url_Parse (buildURL b) = inl u ->
  let sent := mkRequest (buildMethod b) u (urlHost u) (header b) body ctx in
  let '(client, _, w_t) := buildClient b (set_nextLoc S w) in
  let '(cres, w_out) := Client_Do client sent w_t in
  let '(res, b1, w1) := Do b ctx w in
  match cres with
  | ClientResp rp =>
      w1 = set_closedBodies (fun l => l ++ [respBodyID rp]) w_out
      /\ match resp b with
         | Some target =>
             res = DoReturn (fst (Decode (buildCodec b) (respBody rp) target))
             /\ resp b1 = Some (snd (Decode (buildCodec b) (respBody rp) target))
         | None => res = DoReturn None /\ resp b1 = None
         end
  | ClientErr e => res = DoReturn (Some e) /\ w1 = w_out /\ resp b1 = resp b
  | ClientPanic v => res = DoPanic v /\ w1 = w_out /\ resp b1 = resp b
  end.
Proof.
  intros Hbody Hm Hu; simpl.
  unfold Do. fold (encodedBody b). rewrite Hbody.
  unfold http_NewRequestWithContext, bind at 1.
  rewrite buildMethod_nonempty, Hm, Hu; simpl.
  unfold make_Header, bind at 1 2 3, get, modify, ret at 1; simpl.
  unfold setHeader; simpl.
  unfold buildClient, bind at 1 2 3.
  pose proof (buildTransport_keeps b (set_nextLoc S w)) as Hk.
  destruct (buildTransport b (set_nextLoc S w)) as [[t b'] w_t]; simpl in Hk.
  destruct Hk as (_ & _ & _ & _ & Hk5 & _).
  unfold ret, bind; simpl.
  destruct (Client_Do _ _ w_t) as [cres w_out].
  destruct cres as [rp|e|v]; simpl; [|done|done].
  rewrite Hk5. destruct (resp b) as [target|].
  - destruct (Decode (buildCodec b) (respBody rp) target) as [err target'].
    unfold Body_Close, modify; simpl. done.
  - unfold Body_Close, modify; simpl. done.
Qed.

(** X5. A request that cannot be constructed ends [Do] before anything
    else happens: with a method that is not a token, or a URL that does not
    parse, [Do] returns the error of the construction, and the world and the
    builder are as they were, so no header map was made, no transport built
    and none invoked. *)
Theorem Do_request_construction_error
    (b : builder) (ctx : Context) (w : World) (body : option Bytes) :
  encodedBody b = inl body ->
  (validMethod (buildMethod b) = false ->
   Do b ctx w
   = (DoReturn (Some (errorString ("net/http: invalid method " +:+ buildMethod b))), b, w))
  /\ (forall err,
        validMethod (buildMethod b) = true ->
        url_Parse (buildURL b) = inr err ->
        Do b ctx w = (DoReturn (Some err), b, w)).
Proof.
  intros Hbody. split.
  - intros Hm. unfold Do. fold (encodedBody b). rewrite Hbody.
    unfold http_NewRequestWithContext, bind.
    rewrite buildMethod_nonempty, Hm. reflexivity.
  - intros err Hm Hu. unfold Do. fold (encodedBody b). rewrite Hbody.
    unfold http_NewRequestWithContext, bind.
    rewrite buildMethod_nonempty, Hm, Hu. reflexivity.
Qed.

(** X6. The client set with [Client] is never used: [Do] builds a client of
    its own around the composed transport, so a builder with a client set
    behaves in every respect as the same builder without it. *)
Theorem Do_ignores_client (c : Client) (b : builder) (ctx : Context) (w : World) :
  let '(res, b1, w1) := Do b ctx w in
  Do (builder_Client c b) ctx w = (res, builder_Client c b1, w1).
Proof.
  unfold Do; simpl.
  change (buildURL (builder_Client c b)) with (buildURL b).
  change (buildMethod (builder_Client c b)) with (buildMethod b).
  change (buildCodec (builder_Client c b)) with (buildCodec b).
  destruct (match req b with
            | Some v => _
            | None => _
            end) as [body|err]; [|reflexivity].
  unfold bind.
  destruct (http_NewRequestWithContext ctx (buildMethod b) (buildURL b) body w)
    as [[httpReq|err] w0]; [|reflexivity].
  unfold buildClient, buildTransport; simpl.
  destruct (negb (rebuildTransport b =? 1)); unfold bind, ret; simpl.
  - destruct (Client_Do _ _ w0) as [[rp|e|v] w2]; simpl; [|done|done].
    destruct (resp b) as [target|]; [|done].
    by destruct (Decode (buildCodec b) (respBody rp) target).
  - destruct (wrapAll (transportWrappers b) DefaultTransport w0) as [t w1]; simpl.
    destruct (Client_Do _ _ w1) as [[rp|e|v] w2]; simpl; [|done|done].
    destruct (resp b) as [target|]; [|done].
    by destruct (Decode (buildCodec b) (respBody rp) target).
Qed.

(** X7. The builder of the earlier file and the present one agree where
    they overlap: for a builder with no base URL, no decorator and no client
    (as [New] makes it, whatever URL, method, codec, values, headers, request
    value and response target were set), [Do] of the earlier file returns the
    same result in the same world and leaves the same configuration and
    decoded target. *)
Theorem Do0_agrees_with_Do (b : builder) (ctx : Context) (w : World) :
  baseURL b = "" ->
  transportWrappers b = [] ->
  rebuildTransport b = 1 ->
  client b = None ->
  let '(res0, b0, w0) := Do0 (asBuilder0 b) ctx w in
  let '(res, b1, w1) := Do b ctx w in
  res = res0 /\ w1 = w0 /\ asBuilder0 b1 = b0.
Proof.
  intros Hbase Hws Hflag Hc.
  unfold Do0, Do, asBuilder0, buildURL, buildMethod, buildCodec; simpl.
  rewrite Hbase, Hc; simpl.
  destruct (match req b with
            | Some v => _
            | None => _
            end) as [body|err]; [|unfold ret; simpl; by rewrite Hc].
  unfold bind.
  destruct (http_NewRequestWithContext ctx _ _ body w) as [[httpReq|err] w0];
    [|unfold ret; simpl; by rewrite Hc].
  unfold buildClient, buildTransport. rewrite Hflag, Hws; simpl.
  unfold Client_Do, http_DefaultClient, RoundTrip; simpl. unfold bind, ret; simpl.
  destruct (DefaultTransport _ w0) as [[[rp|] [e|]|v] w2]; simpl;
    try (by rewrite ?Hws, ?Hc).
  destruct (resp b) as [target|]; simpl.
  - destruct (Decode _ (respBody rp) target) as [err target']; simpl.
    by rewrite ?Hc.
  - by rewrite ?Hc.
Qed.

(** *** The decorators under [Do] *)

Lemma TimeoutTransport_run_no_deadline d next w0 r w :
  ctxDeadline (reqCtx r) = None ->
  RoundTrip (decorated (TimeoutTransport d) next w0) r w
  = (let '(res, w') :=
       RoundTrip next
         (WithContext r (mkContext (Some (clock w + effectiveDuration d))
                           (ctxTraceID (reqCtx r)) (ctxSpan (reqCtx r))
                           (nextScope w :: ctxScopes (reqCtx r))))
         (set_nextScope S w) in
     (propagate res, set_released (fun l => l ++ [nextScope w]) w')).
Proof.
  intros Hdl.
  unfold decorated, TimeoutTransport, Transport, RoundTrip, ret, Deadline; simpl.
  change (if d <=? 0 then Second * 5 else d) with (effectiveDuration d).
  rewrite Hdl; simpl.
  unfold context_WithTimeout, context_WithDeadline, time_Now, bind, get, modify, ret;
    simpl. rewrite Hdl; simpl.
  by destruct (next _ _).
Qed.

Lemma TimeoutTransport_run_earlier_deadline d next w0 r w dl :
  ctxDeadline (reqCtx r) = Some dl ->
  dl <= clock w + effectiveDuration d ->
  RoundTrip (decorated (TimeoutTransport d) next w0) r w
  = (Panicked nilDereference, snd (RoundTrip next (WithContext r (reqCtx r)) w)).
Proof.
  intros Hdl Hle.
  unfold decorated, TimeoutTransport, Transport, RoundTrip, ret, Deadline; simpl.
  change (if d <=? 0 then Second * 5 else d) with (effectiveDuration d).
  rewrite Hdl; simpl. unfold bind, time_Now, get, ret; simpl.
  assert (Hn : (clock w + effectiveDuration d <? dl) = false)
    by (apply Z.ltb_ge; lia).
  rewrite Hn. by destruct (next _ w).
Qed.

Lemma wrapAll_std ks base w0 :
  exists t, wrapAll (map toDecorator ks) base w0 = (t, w0).
Proof.
  pose proof (wrapAll_std_pure ks base w0) as H.
  destruct (wrapAll (map toDecorator ks) base w0) as [t w1]. simpl in H. subst.
  by exists t.
Qed.

(** The Logging decorator touches the logger and the sink, nothing else. *)
Lemma LoggingTransport_frame name next w0 r w :
  let w1 := snd (RoundTrip next r w) in
  let w2 := snd (RoundTrip (decorated (LoggingTransport name) next w0) r w) in
  clock w2 = clock w1 /\ headers w2 = headers w1 /\ spans w2 = spans w1
  /\ released w2 = released w1 /\ closedBodies w2 = closedBodies w1
  /\ events w2 = events w1.
Proof.
  unfold decorated, LoggingTransport, Transport, RoundTrip, bind, zap_Info, zap_With,
    time_Now, get, modify, ret; simpl.
  destruct (next r w) as [res w1]; simpl.
  by destruct res as [[rp|] [err|]|v].
Qed.

(** [Do] in terms of the transport [buildTransport] hands to the client. *)
Lemma Do_through b ctx w body u t b' w_t :
  encodedBody b = inl body ->
  validMethod (buildMethod b) = true ->
  url_Parse (buildURL b) = inl u ->
  buildTransport b (set_nextLoc S w) = (Some t, b', w_t) ->
  let sent := mkRequest (buildMethod b) u (urlHost u) (header b) body ctx in
  exists b1,
    Do b ctx w
    = (resultOf b u (fst (RoundTrip t sent w_t)), b1,
       worldOf (fst (RoundTrip t sent w_t)) (snd (RoundTrip t sent w_t))).
Proof.
  intros Hbody Hm Hu Ht; simpl.
  pose proof (buildTransport_keeps b (set_nextLoc S w)) as Hk.
  rewrite Ht in Hk; simpl in Hk. destruct Hk as (_ & _ & _ & _ & Hk5 & _).
  unfold Do. fold (encodedBody b). rewrite Hbody.
  unfold http_NewRequestWithContext, bind at 1.
  rewrite buildMethod_nonempty, Hm, Hu; simpl.
  unfold make_Header, bind at 1 2 3, get, modify, ret at 1; simpl.
  unfold setHeader; simpl.
  unfold buildClient, bind. rewrite Ht.
  unfold Client_Do, RoundTrip; simpl. unfold ret, bind; simpl.
  destruct (t _ w_t) as [[[rp|] [e|]|v] w_out]; simpl; eauto.
  rewrite Hk5. destruct (resp b) as [target|]; [|eauto].
  destruct (Decode (buildCodec b) (respBody rp) target); eauto.
Qed.

(** X8. Through [Do], a caller's deadline that is not later than the
    timeout makes the call panic: when the Timeout decorator was registered
    last, after any number of the package's decorators, and the context
    given to [Do] carries a deadline at most [now + D], [Do] does not return
    but panics with the nil dereference of the deferred cancel. *)
Theorem Do_panics_under_earlier_deadline
    (ks : list stdDecorator) (d : Duration) (b : builder) (ctx : Context) (w : World)
    (body : option Bytes) (u : url_URL) (deadline : Time) :
  transportWrappers b = map toDecorator ks ++ [TimeoutTransport d] ->
  rebuildTransport b = 1 ->
  encodedBody b = inl body ->
  validMethod (buildMethod b) = true ->
  url_Parse (buildURL b) = inl u ->
  ctxDeadline ctx = Some deadline ->
  deadline <= clock w + effectiveDuration d ->
  fst (fst (Do b ctx w)) = DoPanic nilDereference.
Proof.
  intros Hws Hflag Hbody Hm Hu Hdl Hle.
  destruct (wrapAll_std ks DefaultTransport (set_nextLoc S w)) as [t Ht].
  assert (Hb : exists b',
             buildTransport b (set_nextLoc S w)
             = (Some (decorated (TimeoutTransport d) t (set_nextLoc S w)), b',
                set_nextLoc S w)).
  { unfold buildTransport. rewrite Hflag, Hws. cbn [negb Z.eqb Pos.eqb].
    unfold bind at 1. rewrite wrapAll_app. unfold bind at 1. rewrite Ht.
    eexists. reflexivity. }
  destruct Hb as [b' Hb].
  destruct (Do_through b ctx w body u _ b' _ Hbody Hm Hu Hb) as [b1 Hres].
  rewrite Hres. cbn [fst].
  erewrite TimeoutTransport_run_earlier_deadline; [reflexivity|exact Hdl|exact Hle].
Qed.

(** X9. The configuration of the package's test: Logging, Trace and
    Timeout registered in this order, and a context without a deadline. The
    base transport is called once, with the request under a context whose
    deadline is [now + D] and which carries the trace identifier of the span
    started for the call. Whatever the base transport answers, one log entry
    is written after it, carrying that trace identifier, and the derived
    context is released; a response is decoded and its body closed, an error
    comes back wrapped in the [url.Error] of the client, a panic goes on. *)
Theorem Do_with_Logging_Trace_Timeout
    (n1 n2 : string) (d : Duration) (b : builder) (ctx : Context) (w : World)
    (body : option Bytes) (u : url_URL) :
  transportWrappers b = [LoggingTransport n1; TraceTransport n2; TimeoutTransport d] ->
  rebuildTransport b = 1 ->
  encodedBody b = inl body ->
  validMethod (buildMethod b) = true ->
  url_Parse (buildURL b) = inl u ->
  ctxDeadline ctx = None ->
  let sent := mkRequest (buildMethod b) u (urlHost u) (header b) body ctx in
  let r1 := WithContext sent
              (mkContext (Some (clock w + effectiveDuration d)) (ctxTraceID ctx)
                 (ctxSpan ctx) (nextScope w :: ctxScopes ctx)) in
  let w1 := set_nextScope S (set_nextLoc S w) in
  let r2 := WithContext r1 (tracedCtx n2 r1 w1) in
  let traceID := TraceID_String (scTraceID (spanCtx (tracedSpan n2 r1 w1))) in
  ctxDeadline (reqCtx r2) = Some (clock w + effectiveDuration d)
  /\ traceIDFromContext (reqCtx r2) = traceID
  /\ let '(out, w3) := RoundTrip DefaultTransport r2 (tracedWorld n2 r1 w1) in
     (exists e,
         sink (snd (Do b ctx w)) = sink w3 ++ [e]
         /\ ("service", FString n1) ∈ entryFields e
         /\ ("trace_id", FString traceID) ∈ entryFields e)
     /\ released (snd (Do b ctx w)) = released w3 ++ [nextScope w]
     /\ closedBodies (snd (Do b ctx w))
        = closedBodies w3 ++ match propagate out with
                             | Returned (Some rp) None => [respBodyID rp]
                             | _ => []
                             end
     /\ fst (fst (Do b ctx w)) = resultOf b u (propagate out).
Proof.
  intros Hws Hflag Hbody Hm Hu Hdl; simpl.
  split; [reflexivity|]. split; [reflexivity|].
  assert (Hb : exists b',
             buildTransport b (set_nextLoc S w)
             = (Some (decorated (TimeoutTransport d)
                        (decorated (TraceTransport n2)
                           (decorated (LoggingTransport n1) DefaultTransport
                              (set_nextLoc S w))
                           (set_nextLoc S w))
                        (set_nextLoc S w)), b', set_nextLoc S w)).
  { unfold buildTransport. rewrite Hflag, Hws. eexists. reflexivity. }
  destruct Hb as [b' Hb].
  destruct (Do_through b ctx w body u _ b' _ Hbody Hm Hu Hb) as [b1 Hres].
  rewrite Hres. cbn [fst snd]. clear Hres Hb.
  set (sent := mkRequest (buildMethod b) u (urlHost u) (header b) body ctx).
  rewrite (TimeoutTransport_run_no_deadline d _ _ sent _ Hdl).
  rewrite TraceTransport_run.
  change (reqCtx sent) with ctx.
  change (clock (set_nextLoc S w)) with (clock w).
  change (nextScope (set_nextLoc S w)) with (nextScope w).
  set (r1 := WithContext sent _).
  set (w1 := set_nextScope S (set_nextLoc S w)).
  pose proof (LoggingTransport_run n1 DefaultTransport (set_nextLoc S w)
                (WithContext r1 (tracedCtx n2 r1 w1)) (tracedWorld n2 r1 w1)) as HL.
  pose proof (LoggingTransport_frame n1 DefaultTransport (set_nextLoc S w)
                (WithContext r1 (tracedCtx n2 r1 w1)) (tracedWorld n2 r1 w1)) as HF.
  destruct (RoundTrip DefaultTransport _ _) as [out w3].
  destruct (RoundTrip (decorated (LoggingTransport n1) DefaultTransport _) _ _)
    as [out' w4].
  destruct HL as (-> & e & Hs & _ & _ & Hf & _).
  simpl in HF. destruct HF as (_ & _ & _ & Hrel & Hcb & _).
  cbn [fst snd].
  assert (Hpp : propagate (propagate (propagate out)) = propagate out)
    by (by destruct out as [[?|] [?|]|?]).
  rewrite Hpp.
  assert (Hfr : forall o w', sink (worldOf o (set_released (fun l => l ++ [nextScope w]) w'))
                             = sink w'
                /\ released (worldOf o (set_released (fun l => l ++ [nextScope w]) w'))
                   = released w' ++ [nextScope w]
                /\ closedBodies (worldOf o (set_released (fun l => l ++ [nextScope w]) w'))
                   = closedBodies w' ++ match o with
                                        | Returned (Some rp) None => [respBodyID rp]
                                        | _ => []
                                        end).
  { intros o w'. destruct o as [[?|] [?|]|?]; simpl; by rewrite ?app_nil_r. }
  destruct (Hfr (propagate out) w4) as (-> & -> & ->).
  rewrite Hrel, Hcb.
  split; [|done].
  exists e. split; [exact Hs|]. rewrite Hf.
  split; apply elem_of_app; right; apply elem_of_app; left.
  - do 2 constructor 2. constructor 1.
  - do 5 constructor 2. constructor 1.
Qed.

(** X10. However often [Do] is called, the composed transport is built
    anew each time: a builder whose flag is 1 (as every builder [New] makes)
    comes out of [Do] with the flag at 1 and its decorator list unchanged, so
    the next [Do] applies every decorator to the base transport again. *)
Theorem Do_keeps_rebuilding (b : builder) (ctx : Context) (w : World) :
  rebuildTransport b = 1 ->
  let '(_, b1, _) := Do b ctx w in
  rebuildTransport b1 = 1
  /\ transportWrappers b1 = transportWrappers b
  /\ forall w', exists t,
        fst (fst (buildTransport b1 w')) = Some t
        /\ (t, snd (buildTransport b1 w')) = wrapAll (transportWrappers b) DefaultTransport w'.
Proof.
  intros Hflag.
  assert (Hgoal : forall b1,
             rebuildTransport b1 = 1 -> transportWrappers b1 = transportWrappers b ->
             rebuildTransport b1 = 1
             /\ transportWrappers b1 = transportWrappers b
             /\ forall w', exists t,
                   fst (fst (buildTransport b1 w')) = Some t
                   /\ (t, snd (buildTransport b1 w'))
                      = wrapAll (transportWrappers b) DefaultTransport w').
  { intros b1 H1 H2. split; [done|]. split; [done|]. intros w'.
    destruct (buildTransport_rebuilds b1 w' H1) as (t & w2 & Hw & Ht & Hs & _).
    exists t. rewrite Ht, Hs, <- H2. split; [done|]. by rewrite Hw. }
  unfold Do.
  destruct (match req b with
            | Some v => _
            | None => _
            end) as [body|err]; [|by apply Hgoal].
  unfold bind.
  destruct (http_NewRequestWithContext ctx (buildMethod b) (buildURL b) body w)
    as [[httpReq|err] w0]; [|by apply Hgoal].
  unfold buildClient, bind.
  destruct (buildTransport_rebuilds b w0 Hflag) as (t & w1 & _ & _ & _ & Hf & Hws & _).
  destruct (buildTransport b w0) as [[ot b2] w1']; simpl in Hf, Hws.
  unfold ret at 1.
  destruct (Client_Do _ _ w1') as [[rp|e|v] w2]; [|by apply Hgoal..].
  destruct (resp b2) as [target|]; [|by apply Hgoal].
  destruct (Decode (buildCodec b) (respBody rp) target). by apply Hgoal.
Qed.

(** X11. Registering decorators composes: for a builder whose flag is 1,
    building after one more [WrapTransport] call gives the new decorators
    applied, in their order, to the very transport the builder would have
    given without that call. *)
Theorem buildTransport_after_WrapTransport
    (ws : list Decorator) (b : builder) (w : World) :
  rebuildTransport b = 1 ->
  let '(t, _, w1) := buildTransport b w in
  let '(t', _, w') := buildTransport (WrapTransport ws b) w in
  exists rt,
    t = Some rt
    /\ (t', w') = (let '(x, w2) := wrapAll ws rt w1 in (Some x, w2)).
Proof.
  intros Hflag. unfold buildTransport; simpl. rewrite Hflag; simpl.
  unfold bind at 1 2. rewrite wrapAll_app. unfold bind, ret.
  destruct (wrapAll (transportWrappers b) DefaultTransport w) as [rt w1].
  destruct (wrapAll ws rt w1) as [x w2] eqn:E.
  exists rt. split; [reflexivity|]. by rewrite E.
Qed.

(** *** Headers *)

Lemma header_at_Add l k v w :
  header_at l (snd (http_Header_Add l k v w))
  = <[CanonicalMIMEHeaderKey k :=
        default [] (header_at l w !! CanonicalMIMEHeaderKey k) ++ [v]]> (header_at l w).
Proof.
  unfold http_Header_Add, modify, header_at; simpl.
  by rewrite lookup_insert_eq.
Qed.

Lemma header_at_Add_other l l' k v w :
  l' <> l -> header_at l' (snd (http_Header_Add l k v w)) = header_at l' w.
Proof.
  intros Hne. unfold http_Header_Add, modify, header_at; simpl.
  by rewrite lookup_insert_ne.
Qed.

(** X12. Headers accumulate under the canonical form of their key: after
    any sequence of [Header] calls the builder's map holds, under each
    canonical key, the values it held followed by the values added under any
    spelling of that key, in the order of the calls; the builder itself and
    every other header map are unchanged. *)
Theorem addHeaders_values (kvs : list (string * string)) (b : builder) (w : World) :
  let '(b', w') := addHeaders kvs b w in
  b' = b
  /\ (forall k,
        default [] (header_at (header b) w' !! k)
        = default [] (header_at (header b) w !! k) ++ underCanonicalKey k kvs)
  /\ (forall l, l <> header b -> header_at l w' = header_at l w).
Proof.
  revert w. induction kvs as [|[k0 v0] kvs IH]; intros w.
  - simpl. split; [done|]. split; [|done]. intros k.
    unfold underCanonicalKey; simpl. by rewrite app_nil_r.
  - cbn [addHeaders fst snd]. unfold bind at 1, Header at 1, bind at 1, ret at 1.
    pose proof (header_at_Add (header b) k0 v0 w) as Hadd.
    pose proof (fun l' => header_at_Add_other (header b) l' k0 v0 w) as Hother.
    destruct (http_Header_Add (header b) k0 v0 w) as [[] w1]; simpl in Hadd, Hother.
    specialize (IH w1). destruct (addHeaders kvs b w1) as [b' w'].
    destruct IH as (-> & IHk & IHl). split; [done|]. split.
    + intros k. rewrite IHk, Hadd. unfold underCanonicalKey; cbn [List.filter fst snd].
      destruct (String.eqb_spec (CanonicalMIMEHeaderKey k0) k) as [<-|Hne].
      * rewrite lookup_insert_eq; cbn. by rewrite <- app_assoc.
      * by rewrite lookup_insert_ne.
    + intros l Hl. rewrite IHl by done. by apply Hother.
Qed.

(** X13. Builders do not share header state: two builders made by the
    package-level [Header] constructor have different header maps, and the
    header given to the second one leaves the first one's map as it was. *)
Theorem constructors_do_not_share_headers (k1 v1 k2 v2 : string) (w : World) :
  let '(b1, w1) := goreq_Header k1 v1 w in
  let '(b2, w2) := goreq_Header k2 v2 w1 in
  header b1 <> header b2
  /\ header_at (header b1) w2 = header_at (header b1) w1
  /\ default [] (header_at (header b2) w2 !! CanonicalMIMEHeaderKey k2)
     = default [] (header_at (header b2) w1 !! CanonicalMIMEHeaderKey k2) ++ [v2].
Proof.
  unfold goreq_Header, New, Header, make_Header, bind, get, modify, ret,
    http_Header_Add, header_at; simpl.
  split; [lia|]. split.
  - rewrite lookup_insert_ne by lia. reflexivity.
  - rewrite !lookup_insert_eq; simpl. by rewrite lookup_insert_eq.
Qed.

(** *** The Timeout decorator, again *)

Lemma TimeoutTransport_run_derived d next w0 r w :
  match ctxDeadline (reqCtx r) with
  | Some deadline => clock w + effectiveDuration d < deadline
  | None => True
  end ->
  RoundTrip (decorated (TimeoutTransport d) next w0) r w
  = (let '(res, w') :=
       RoundTrip next
         (WithContext r (mkContext (Some (clock w + effectiveDuration d))
                           (ctxTraceID (reqCtx r)) (ctxSpan (reqCtx r))
                           (nextScope w :: ctxScopes (reqCtx r))))
         (set_nextScope S w) in
     (propagate res, set_released (fun l => l ++ [nextScope w]) w')).
Proof.
  destruct (ctxDeadline (reqCtx r)) as [dl|] eqn:Hdl;
    [|intros _; by apply TimeoutTransport_run_no_deadline].
  intros Hlt.
  unfold decorated, TimeoutTransport, Transport, RoundTrip, ret, Deadline; simpl.
  change (if d <=? 0 then Second * 5 else d) with (effectiveDuration d).
  rewrite Hdl; simpl.
  unfold bind at 1 2; unfold time_Now, get, ret; simpl.
  assert (Hn : (clock w + effectiveDuration d <? dl) = true) by (apply Z.ltb_lt; lia).
  rewrite Hn.
  unfold context_WithTimeout, context_WithDeadline, time_Now, bind, get, modify, ret;
    simpl. rewrite Hdl.
  assert (Hm : (dl <? clock w + effectiveDuration d) = false) by (apply Z.ltb_ge; lia).
  rewrite Hm; simpl.
  by destruct (next _ _).
Qed.

(** X1. What the Timeout decorator does with the cancel function, in full.
    When it derives a context (the incoming one has no deadline, or one
    later than [now + D]), the derived context keeps the values of the
    incoming one, the outcome of the inner call is handed on, and the derived
    context is released once, after the inner call, whether that returned a
    response, an error or panicked. Otherwise the inner call is made under
    the incoming context, nothing is released, and the call panics. *)
Theorem TimeoutTransport_cancel
    (d : Duration) (next : RoundTripper) (w0 : World) (r : Request) (w : World) :
  let D := effectiveDuration d in
  let derives := match ctxDeadline (reqCtx r) with
                 | Some deadline => clock w + D <? deadline
                 | None => true
                 end in
  let ctx' := mkContext (Some (clock w + D)) (ctxTraceID (reqCtx r)) (ctxSpan (reqCtx r))
                        (nextScope w :: ctxScopes (reqCtx r)) in
  RoundTrip (decorated (TimeoutTransport d) next w0) r w
  = if derives
    then let '(res, w') := RoundTrip next (WithContext r ctx') (set_nextScope S w) in
         (propagate res, set_released (fun l => l ++ [nextScope w]) w')
    else (Panicked nilDereference, snd (RoundTrip next (WithContext r (reqCtx r)) w)).
Proof.
  intros D derives ctx'. subst D derives ctx'.
  destruct (ctxDeadline (reqCtx r)) as [dl|] eqn:Hdl.
  - destruct (Z.ltb_spec (clock w + effectiveDuration d) dl) as [Hlt|Hge].
    + apply TimeoutTransport_run_derived. by rewrite Hdl.
    + by apply (TimeoutTransport_run_earlier_deadline d next w0 r w dl).
  - apply TimeoutTransport_run_derived. by rewrite Hdl.
Qed.

(** X14. Two Timeout decorators, one around the other, where the outer
    one's duration is not longer than the inner one's: every request
    panics. Either the outer decorator makes no derived context and panics
    itself, or it sets the deadline [now + D_outer], which the inner one
    finds not later than its own, so that the inner one panics. *)
Theorem nested_TimeoutTransport_panics
    (d_in d_out : Duration) (next : RoundTripper) (w0 w0' : World)
    (r : Request) (w : World) :
  effectiveDuration d_out <= effectiveDuration d_in ->
  fst (RoundTrip (decorated (TimeoutTransport d_out)
                    (decorated (TimeoutTransport d_in) next w0) w0') r w)
  = Panicked nilDereference.
Proof.
  intros Hle.
  assert (Hderived :
            match ctxDeadline (reqCtx r) with
            | Some deadline => clock w + effectiveDuration d_out < deadline
            | None => True
            end ->
            fst (RoundTrip (decorated (TimeoutTransport d_out)
                              (decorated (TimeoutTransport d_in) next w0) w0') r w)
            = Panicked nilDereference).
  { intros H. rewrite (TimeoutTransport_run_derived d_out _ w0' r w H).
    erewrite (TimeoutTransport_run_earlier_deadline d_in next w0);
      [reflexivity|reflexivity|simpl; lia]. }
  destruct (ctxDeadline (reqCtx r)) as [dl|] eqn:Hdl; [|by apply Hderived].
  destruct (Z.lt_ge_cases (clock w + effectiveDuration d_out) dl) as [Hlt|Hge].
  - by apply Hderived.
  - by rewrite (TimeoutTransport_run_earlier_deadline d_out _ w0' r w dl Hdl Hge).
Qed.

End Goreq.

Arguments New {Value}.
Arguments WrapTransport {Value}.
Arguments URL {Value}.
Arguments BaseURL {Value}.
Arguments QueryString {Value}.
Arguments Req {Value}.
Arguments builder_Codec {Value}.
Arguments mkCodec {Value}.
Arguments buildURL {Value}.
Arguments buildTransport {Value}.
Arguments execute {Value}.
Arguments Do {Value}.
Arguments header {Value}.

(* ===================================================================== *)
(** ** Concrete runs *)
(* ===================================================================== *)

(** The library functions on small inputs. *)
Example CanonicalMIMEHeaderKey_example :
  CanonicalMIMEHeaderKey "x-request-id" = "X-Request-Id"
  /\ CanonicalMIMEHeaderKey "traceparent" = "Traceparent"
  /\ CanonicalMIMEHeaderKey "not a token" = "not a token".
Proof. repeat split. Qed.

Example url_QueryEscape_example :
  url_QueryEscape "a b&c=d/~" = "a+b%26c%3Dd%2F~"
  /\ url_QueryUnescape "a+b%26c%3Dd%2F~" = Some "a b&c=d/~"
  /\ url_QueryUnescape "100%" = None.
Proof. repeat split. Qed.

Example url_Values_Encode_example :
  url_Values_Encode
    (url_Values_Add "b" "2" (url_Values_Add "a" "x y" (url_Values_Add "b" "1" ∅)))
  = "a=x+y&b=1&b=2".
Proof. reflexivity. Qed.

Example urlErrorOp_example : urlErrorOp "POST" = "Post".
Proof. reflexivity. Qed.

(** C1 (counterexample). Two instrumented decorators registered as [1, 2]
    over a base transport that answers 200: the request enters 2, then 1,
    then the base transport, and comes back through 1, then 2, which is not
    the order the specification states. *)
Lemma buildTransport_call_order_counterexample :
  List.filter isCall
    (events (snd (execute (spyBase resp200)
                    (WrapTransport [spyDecorator 1; spyDecorator 2]
                       (fst (New (Value := unit) emptyWorld)))
                    (demoRequest context_Background)
                    (snd (New (Value := unit) emptyWorld)))))
  = [EvEnter 2; EvEnter 1; EvBase; EvExit 1; EvExit 2]
  /\ [EvEnter 2; EvEnter 1; EvBase; EvExit 1; EvExit 2] <> specCallOrder [1; 2]%nat.
Proof.
  split; [reflexivity|]. intros H. vm_compute in H. discriminate H.
Qed.

(** C4 (a concrete run). One instrumented decorator, two [buildTransport]
    calls in a row: the decorator is applied twice. *)
Lemma buildTransport_twice_example :
  events (snd (buildTransport (spyBase resp200)
                 (snd (fst (buildTransport (spyBase resp200)
                              (WrapTransport [spyDecorator 7]
                                 (fst (New (Value := unit) emptyWorld)))
                              (snd (New (Value := unit) emptyWorld)))))
                 (snd (buildTransport (spyBase resp200)
                         (WrapTransport [spyDecorator 7]
                            (fst (New (Value := unit) emptyWorld)))
                         (snd (New (Value := unit) emptyWorld))))))
  = [EvWrap 7; EvWrap 7].
Proof. reflexivity. Qed.

(** C3 (witness): a context whose deadline is one second away, a Timeout
    decorator of five seconds. *)
Lemma TimeoutTransport_nil_cancel_panics_witness :
  fst (RoundTrip (decorated (TimeoutTransport (Second * 5)) (spyBase resp200) emptyWorld)
         (demoRequest (mkContext (Some Second) None None []))
         emptyWorld)
  = Panicked nilDereference.
Proof.
  apply (TimeoutTransport_nil_cancel_panics (Second * 5) (spyBase resp200) emptyWorld
           (demoRequest (mkContext (Some Second) None None [])) emptyWorld Second).
  - reflexivity.
  - vm_compute. discriminate.
Defined.

(** C5 (counterexample). One request through the Trace decorator, the
    inner transport answering 200, and one with the inner transport failing:
    in both runs the span the decorator started is still not ended when the
    decorator has returned. *)
Lemma TraceTransport_span_not_ended :
  (fst (RoundTrip (decorated (TraceTransport "demo") (spyBase resp200) emptyWorld)
          (demoRequest context_Background) emptyWorld)
   = Returned (Some resp200) None
   /\ map spanEnded
        (spans (snd (RoundTrip (decorated (TraceTransport "demo") (spyBase resp200) emptyWorld)
                       (demoRequest context_Background) emptyWorld)))
      = [false])
  /\ (fst (RoundTrip (decorated (TraceTransport "demo")
                        (failingBase (errorString "connection refused")) emptyWorld)
             (demoRequest context_Background) emptyWorld)
      = Returned None (Some (errorString "connection refused"))
      /\ map spanEnded
           (spans (snd (RoundTrip (decorated (TraceTransport "demo")
                                     (failingBase (errorString "connection refused"))
                                     emptyWorld)
                          (demoRequest context_Background) emptyWorld)))
         = [false]).
Proof. repeat split. Qed.

(** C8 (counterexample). A URL with a space in its host and one query
    parameter: the query string is escaped and appended, the URL is copied
    as it is, and the result is not made of URI characters only. *)
Lemma buildURL_not_well_formed :
  buildURL (QueryString "k" "v"
              (URL "http://x y/p" (fst (New (Value := unit) emptyWorld))))
  = "http://x y/p?k=v"
  /\ uriCharsOnly "http://x y/p?k=v" = false.
Proof. split; reflexivity. Qed.

(** C9 (witness): two requests through the Logging decorator over a base
    transport that answers 200. *)
Lemma logger_accumulates_witness :
  exists es,
    sink (snd (runAll (decorated (LoggingTransport (fun _ => "") "demo")
                         (spyBase resp200) emptyWorld)
                 [demoRequest context_Background; demoRequest context_Background]
                 emptyWorld))
    = sink emptyWorld ++ es
    /\ length es = 2%nat
    /\ forall j ej, es !! j = Some ej ->
         ("host", FString "example.com") ∈ entryFields ej.
Proof.
  destruct (logger_accumulates (fun _ => "") "demo" (spyBase resp200) emptyWorld
              [demoRequest context_Background; demoRequest context_Background]
              emptyWorld (fun r w => conj eq_refl eq_refl))
    as (es & Hs & Hl & Hc & _).
  exists es. split; [exact Hs|]. split; [exact Hl|].
  intros j ej Hj.
  exact (proj1 (Hc 0%nat j (demoRequest context_Background) ej (Nat.le_0_l j) eq_refl Hj)).
Defined.

(** C7 (witness): a builder whose codec cannot encode the request value,
    and a builder without a request value. *)
Lemma Do_encode_gate_witness :
  Do (fun _ : unit => ([], None)) (fun _ v => (None, v)) demoParse (spyBase resp200)
     (Req tt (builder_Codec
                (mkCodec (fun _ v => (None, v))
                         (fun _ => ([], Some (errorString "json: unsupported type"))))
                (fst (New (Value := unit) emptyWorld))))
     context_Background (snd (New (Value := unit) emptyWorld))
  = (DoReturn (Some (errorString "json: unsupported type")),
     Req tt (builder_Codec
               (mkCodec (fun _ v => (None, v))
                        (fun _ => ([], Some (errorString "json: unsupported type"))))
               (fst (New (Value := unit) emptyWorld))),
     snd (New (Value := unit) emptyWorld))
  /\ fst (fst (Do (fun _ : unit => ([], None)) (fun _ v => (None, v)) demoParse
                 (spyBase resp200)
                 (builder_Codec
                    (mkCodec (fun _ v => (None, v))
                             (fun _ => ([], Some (errorString "json: unsupported type"))))
                    (fst (New (Value := unit) emptyWorld)))
                 context_Background (snd (New (Value := unit) emptyWorld))))
     = fst (fst (Do (fun _ : unit => ([], None)) (fun _ v => (None, v)) demoParse
                   (spyBase resp200) (fst (New (Value := unit) emptyWorld))
                   context_Background (snd (New (Value := unit) emptyWorld)))).
Proof.
  split.
  - apply (proj1 (Do_encode_gate unit (fun _ => ([], None)) (fun _ v => (None, v))
                    demoParse (spyBase resp200) _ context_Background _) tt []);
      reflexivity.
  - pose proof (proj2 (Do_encode_gate unit (fun _ => ([], None)) (fun _ v => (None, v))
                         demoParse (spyBase resp200) (fst (New (Value := unit) emptyWorld))
                         context_Background (snd (New (Value := unit) emptyWorld)))
                  eq_refl (fun _ => ([], Some (errorString "json: unsupported type"))))
      as H.
    exact (proj1 H).
Defined.

(** C10 (witness): a builder with the Trace decorator, executed twice over
    a base transport that answers 200. *)
Lemma Do_shares_builder_header_witness :
  let b := WrapTransport [TraceTransport "demo"]
             (URL "http://example.com/y" (fst (New (Value := unit) emptyWorld))) in
  let w := snd (New (Value := unit) emptyWorld) in
  let T := spyBase resp200 in
  let call := Do (fun _ : unit => ([], None)) (fun _ v => (None, v)) demoParse T in
  let sent ctx :=
    mkRequest "GET" (mkURL "http" "example.com" "/y" "" "http://example.com/y")
              "example.com" (header b) None ctx in
  let closes w' w_out :=
    w' = w_out \/ exists id, w' = set_closedBodies (fun l => l ++ [id]) w_out in
  let '(client1, _, w_t1) := buildClient unit T b (set_nextLoc S w) in
  let '(_, w_out1) := Client_Do T client1 (sent context_Background) w_t1 in
  let '(_, b1, w1) := call b context_Background w in
  closes w1 w_out1
  /\ headers w1 = headers w_out1
  /\ header b1 = header b
  /\ let '(client2, _, w_t2) := buildClient unit T b1 (set_nextLoc S w1) in
     let '(_, w_out2) := Client_Do T client2 (sent context_Background) w_t2 in
     let '(_, b2, w2) := call b1 context_Background w1 in
     headers (set_nextLoc S w1) = headers w_out1
     /\ closes w2 w_out2
     /\ headers w2 = headers w_out2
     /\ header b2 = header b.
Proof.
  exact (Do_shares_builder_header unit (fun _ => ([], None)) (fun _ v => (None, v))
           demoParse (spyBase resp200)
           (WrapTransport [TraceTransport "demo"]
              (URL "http://example.com/y" (fst (New (Value := unit) emptyWorld))))
           context_Background context_Background (snd (New (Value := unit) emptyWorld))
           None (mkURL "http" "example.com" "/y" "" "http://example.com/y")
           eq_refl eq_refl eq_refl).
Defined.

(** C10 (a concrete run). The same builder: after the first [Do] its header
    map holds the trace propagation header the Trace decorator wrote into
    the request, and after the second [Do] the one of the second span. *)
Lemma Do_Trace_header_example :
  header_at 0%nat
    (snd (Do (fun _ : unit => ([], None)) (fun _ v => (None, v)) demoParse
            (spyBase resp200)
            (WrapTransport [TraceTransport "demo"]
               (URL "http://example.com/y" (fst (New (Value := unit) emptyWorld))))
            context_Background (snd (New (Value := unit) emptyWorld))))
  !! "Traceparent"
  = Some ["00-00000000000000000000000000000001-0000000000000002-01"].
Proof. vm_compute. reflexivity. Qed.

(** C10 (a concrete run). A decorator that adds [X-Stamp: v] to the request,
    a base transport that writes down the [X-Stamp] values it receives, two
    [Do] calls of one builder: the second request carries the header of the
    first call again, next to its own. *)
Lemma Do_header_sent_again_example :
  events
    (snd (Do (fun _ : unit => ([], None)) (fun _ v => (None, v)) demoParse
            (headerSpyBase "X-Stamp" resp200)
            (snd (fst (Do (fun _ : unit => ([], None)) (fun _ v => (None, v)) demoParse
                         (headerSpyBase "X-Stamp" resp200)
                         (WrapTransport [stampDecorator "x-stamp" "v"]
                            (URL "http://example.com/y"
                               (fst (New (Value := unit) emptyWorld))))
                         context_Background (snd (New (Value := unit) emptyWorld)))))
            context_Background
            (snd (Do (fun _ : unit => ([], None)) (fun _ v => (None, v)) demoParse
                    (headerSpyBase "X-Stamp" resp200)
                    (WrapTransport [stampDecorator "x-stamp" "v"]
                       (URL "http://example.com/y"
                          (fst (New (Value := unit) emptyWorld))))
                    context_Background (snd (New (Value := unit) emptyWorld))))))
  = [EvHeader ["v"]; EvHeader ["v"; "v"]].
Proof. vm_compute. reflexivity. Qed.
